(** * Onion-routing workshop: crypto helpers and node registry

    A shallow embedding of [src/crypto.ts] (key export/import, RSA-OAEP and
    AES-GCM wrappers over Node's WebCrypto) and of the registry server
    ([launchRegistry]: the [/registerNode], [/getNodeRegistry] and
    [/getPrivateKey] handlers), followed by the properties proved of them.

    Layout: Part I holds every definition, Part II every lemma and theorem. *)

From Stdlib Require Import ZArith List Lia Bool Ascii String.
From Stdlib Require Import Strings.Byte.
From stdpp Require Import gmap.
Import ListNotations.

Local Open Scope Z_scope.

(* ===================================================================== *)
(** * Part I. Definitions *)
(* ===================================================================== *)

(** ** Bytes and JavaScript strings *)

(** An [ArrayBuffer], [Uint8Array] or [Buffer] is its sequence of bytes. *)
Definition bytes := list byte.

(** A JavaScript string is its sequence of UTF-16 code units, each in
    [0, 65536). *)
Definition jsstring := list Z.

Definition code_unit (u : Z) : Prop := 0 <= u < 65536.

Definition js_string (s : jsstring) : Prop := Forall code_unit s.

(** An ASCII literal as a JavaScript string. *)
Definition js (s : string) : jsstring :=
  map (fun a => Z.of_N (N_of_ascii a)) (list_ascii_of_string s).

Definition b2z (b : byte) : Z := Z.of_N (Byte.to_N b).

Definition z2b (z : Z) : byte :=
  match Byte.of_N (Z.to_N (z mod 256)) with
  | Some b => b
  | None => x00
  end.

(** ** Base64, as Node's [Buffer] implements it *)

Module Base64.

Definition alphabet : jsstring :=
  js "ABCDEFGHIJKLMNOPQRSTUVWXYZabcdefghijklmnopqrstuvwxyz0123456789+/".

(** The character of a 6-bit value. *)
Definition char (v : Z) : Z := nth (Z.to_nat v) alphabet 0.

Definition pad : Z := 61. (* '=' *)

(** [buf.toString("base64")]: three bytes become four characters; a last
    group of one or two bytes is padded with ['=']. *)
Fixpoint encode (bs : bytes) : jsstring :=
  match bs with
  | [] => []
  | [a] =>
      let a := b2z a in
      [char (Z.shiftr a 2); char (Z.shiftl (Z.land a 3) 4); pad; pad]
  | [a; b] =>
      let a := b2z a in
      let b := b2z b in
      [char (Z.shiftr a 2);
       char (Z.lor (Z.shiftl (Z.land a 3) 4) (Z.shiftr b 4));
       char (Z.shiftl (Z.land b 15) 2); pad]
  | a :: b :: c :: rest =>
      let a := b2z a in
      let b := b2z b in
      let c := b2z c in
      [char (Z.shiftr a 2);
       char (Z.lor (Z.shiftl (Z.land a 3) 4) (Z.shiftr b 4));
       char (Z.lor (Z.shiftl (Z.land b 15) 2) (Z.shiftr c 6));
       char (Z.land c 63)] ++ encode rest
  end.

(** The 6-bit value of a character, in the standard alphabet or in the
    URL-safe one (['-'] and ['_']), which [Buffer.from] accepts too. *)
Definition unbase64 (c : Z) : option Z :=
  if (65 <=? c) && (c <=? 90) then Some (c - 65)
  else if (97 <=? c) && (c <=? 122) then Some (c - 97 + 26)
  else if (48 <=? c) && (c <=? 57) then Some (c - 48 + 52)
  else if (c =? 43) || (c =? 45) then Some 62
  else if (c =? 47) || (c =? 95) then Some 63
  else None.

(** [Buffer.from(s, "base64")] never throws.  It reads the characters in
    order, each as the 8-bit value its code unit is cast to, skips every
    character that is not of the alphabet (white space among them) and
    stops at the first ['=']. *)
Fixpoint sextets (s : jsstring) : list Z :=
  match s with
  | [] => []
  | u :: rest =>
      let c := Z.land u 0xFF in
      match unbase64 c with
      | Some v => v :: sextets rest
      | None => if c =? pad then [] else sextets rest
      end
  end.

(** Four 6-bit values give three bytes; a trailing group of two gives one
    byte, of three gives two, and a single trailing value gives none. *)
Fixpoint pack (vs : list Z) : bytes :=
  match vs with
  | v0 :: v1 :: v2 :: v3 :: rest =>
      z2b (Z.lor (Z.shiftl (Z.land v0 63) 2) (Z.shiftr (Z.land v1 48) 4))
      :: z2b (Z.lor (Z.shiftl (Z.land v1 15) 4) (Z.shiftr (Z.land v2 60) 2))
      :: z2b (Z.lor (Z.shiftl (Z.land v2 3) 6) (Z.land v3 63))
      :: pack rest
  | [v0; v1; v2] =>
      [z2b (Z.lor (Z.shiftl (Z.land v0 63) 2) (Z.shiftr (Z.land v1 48) 4));
       z2b (Z.lor (Z.shiftl (Z.land v1 15) 4) (Z.shiftr (Z.land v2 60) 2))]
  | [v0; v1] =>
      [z2b (Z.lor (Z.shiftl (Z.land v0 63) 2) (Z.shiftr (Z.land v1 48) 4))]
  | _ => []
  end.

Definition decode (s : jsstring) : bytes := pack (sextets s).

End Base64.

(** [arrayBufferToBase64]: [Buffer.from(buffer).toString("base64")]. *)
Definition arrayBufferToBase64 (buffer : bytes) : jsstring :=
  Base64.encode buffer.

(** [base64ToArrayBuffer]: [Buffer.from(base64, "base64")], then the slice
    of the backing store that holds exactly the decoded bytes. *)
Definition base64ToArrayBuffer (base64 : jsstring) : bytes :=
  Base64.decode base64.

(** ** Text encoding: [TextEncoder], [TextDecoder], [buf.toString("utf-8")] *)

Module Text.

Definition REPLACEMENT : Z := 0xFFFD.
Definition BOM : Z := 0xFEFF.

Definition is_lead (u : Z) : bool := (0xD800 <=? u) && (u <=? 0xDBFF).
Definition is_trail (u : Z) : bool := (0xDC00 <=? u) && (u <=? 0xDFFF).

(** A Unicode scalar value: a code point that is no surrogate. *)
Definition scalar (c : Z) : Prop :=
  0 <= c < 0xD800 \/ 0xE000 <= c < 0x110000.

(** The conversion of a string to a sequence of scalar values (WebIDL's
    [USVString], which [TextEncoder.encode] takes): a surrogate pair is one
    code point, and a surrogate that is not part of a pair is replaced by
    U+FFFD. *)
Fixpoint to_scalars (s : jsstring) : list Z :=
  match s with
  | [] => []
  | u :: rest =>
      if is_lead u then
        match rest with
        | v :: rest' =>
            if is_trail v
            then (0x10000 + Z.shiftl (u - 0xD800) 10 + (v - 0xDC00))
                   :: to_scalars rest'
            else REPLACEMENT :: to_scalars rest
        | [] => [REPLACEMENT]
        end
      else if is_trail u then REPLACEMENT :: to_scalars rest
      else u :: to_scalars rest
  end.

(** [String.prototype.isWellFormed]: no surrogate outside a pair. *)
Fixpoint isWellFormed (s : jsstring) : bool :=
  match s with
  | [] => true
  | u :: rest =>
      if is_lead u then
        match rest with
        | v :: rest' => is_trail v && isWellFormed rest'
        | [] => false
        end
      else negb (is_trail u) && isWellFormed rest
  end.

(** The code units of a sequence of code points. *)
Definition code_units_of (c : Z) : jsstring :=
  if c <? 0x10000 then [c]
  else [0xD800 + Z.shiftr (c - 0x10000) 10;
        0xDC00 + Z.land (c - 0x10000) 0x3FF].

Definition from_code_points (cs : list Z) : jsstring :=
  flat_map code_units_of cs.

(** The UTF-8 encoder of the Encoding standard, one code point. *)
Definition utf8_encode_cp (c : Z) : bytes :=
  if c <? 0x80 then [z2b c]
  else if c <? 0x800 then
    [z2b (Z.shiftr c 6 + 0xC0); z2b (Z.lor 0x80 (Z.land c 0x3F))]
  else if c <? 0x10000 then
    [z2b (Z.shiftr c 12 + 0xE0);
     z2b (Z.lor 0x80 (Z.land (Z.shiftr c 6) 0x3F));
     z2b (Z.lor 0x80 (Z.land c 0x3F))]
  else
    [z2b (Z.shiftr c 18 + 0xF0);
     z2b (Z.lor 0x80 (Z.land (Z.shiftr c 12) 0x3F));
     z2b (Z.lor 0x80 (Z.land (Z.shiftr c 6) 0x3F));
     z2b (Z.lor 0x80 (Z.land c 0x3F))].

Definition utf8_encode (cs : list Z) : bytes := flat_map utf8_encode_cp cs.

(** The state of the Encoding standard's UTF-8 decoder. *)
Record decoder := {
  code_point : Z;
  bytes_seen : Z;
  bytes_needed : Z;
  lower_boundary : Z;
  upper_boundary : Z
}.

Definition initial : decoder :=
  {| code_point := 0; bytes_seen := 0; bytes_needed := 0;
     lower_boundary := 0x80; upper_boundary := 0xBF |}.

(** A byte read with no sequence pending: the code points emitted (U+FFFD
    for an error) and the next state. *)
Definition start (b : Z) : list Z * decoder :=
  if b <=? 0x7F then ([b], initial)
  else if (0xC2 <=? b) && (b <=? 0xDF) then
    ([], {| code_point := Z.land b 0x1F; bytes_seen := 0; bytes_needed := 1;
            lower_boundary := 0x80; upper_boundary := 0xBF |})
  else if (0xE0 <=? b) && (b <=? 0xEF) then
    ([], {| code_point := Z.land b 0xF; bytes_seen := 0; bytes_needed := 2;
            lower_boundary := if b =? 0xE0 then 0xA0 else 0x80;
            upper_boundary := if b =? 0xED then 0x9F else 0xBF |})
  else if (0xF0 <=? b) && (b <=? 0xF4) then
    ([], {| code_point := Z.land b 0x7; bytes_seen := 0; bytes_needed := 3;
            lower_boundary := if b =? 0xF0 then 0x90 else 0x80;
            upper_boundary := if b =? 0xF4 then 0x8F else 0xBF |})
  else ([REPLACEMENT], initial).

(** One byte of input.  A byte outside the boundaries of a pending sequence
    ends it with an error and is then read again with no sequence pending. *)
Definition step (d : decoder) (b : Z) : list Z * decoder :=
  if bytes_needed d =? 0 then start b
  else if negb ((lower_boundary d <=? b) && (b <=? upper_boundary d)) then
    let (out, d') := start b in (REPLACEMENT :: out, d')
  else
    let cp := Z.lor (Z.shiftl (code_point d) 6) (Z.land b 0x3F) in
    if bytes_seen d + 1 =? bytes_needed d then ([cp], initial)
    else
      ([], {| code_point := cp; bytes_seen := bytes_seen d + 1;
              bytes_needed := bytes_needed d;
              lower_boundary := 0x80; upper_boundary := 0xBF |}).

(** The decoder run over the input in replacement mode; at the end of the
    input a pending sequence is an error. *)
Fixpoint run (d : decoder) (bs : bytes) : list Z :=
  match bs with
  | [] => if bytes_needed d =? 0 then [] else [REPLACEMENT]
  | b :: rest => let (out, d') := step d (b2z b) in out ++ run d' rest
  end.

Definition utf8_decode (bs : bytes) : list Z := run initial bs.

(** [TextDecoder] without [ignoreBOM]: a leading EF BB BF is dropped. *)
Definition strip_bom (bs : bytes) : bytes :=
  match bs with
  | b0 :: b1 :: b2 :: rest =>
      if (b2z b0 =? 0xEF) && (b2z b1 =? 0xBB) && (b2z b2 =? 0xBF)
      then rest else bs
  | _ => bs
  end.

(** [new TextEncoder().encode(str)]. *)
Definition TextEncoder_encode (str : jsstring) : bytes :=
  utf8_encode (to_scalars str).

(** [new TextDecoder().decode(bytes)]: UTF-8, not fatal, BOM dropped. *)
Definition TextDecoder_decode (bs : bytes) : jsstring :=
  from_code_points (utf8_decode (strip_bom bs)).

(** [buf.toString("utf-8")]: the same decoder; a BOM stays, as U+FEFF. *)
Definition Buffer_toString_utf8 (bs : bytes) : jsstring :=
  from_code_points (utf8_decode bs).

End Text.

(** [stringToUint8Array]. *)
Definition stringToUint8Array (str : jsstring) : bytes :=
  Text.TextEncoder_encode str.

(** [uint8ArrayToString]. *)
Definition uint8ArrayToString (uint8Array : bytes) : jsstring :=
  Text.TextDecoder_decode uint8Array.

(** ** Promises and the random source *)

(** The names of the [DOMException]s WebCrypto rejects with. *)
Inductive DOMException :=
| DataError
| OperationError
| InvalidAccessError
| SyntaxError
| NotSupportedError.

(** A settled promise: fulfilled with a value or rejected with an error. *)
Inductive result (A : Type) :=
| Ok (a : A)
| Err (e : DOMException).

Arguments Ok {A} a.
Arguments Err {A} e.

Definition bind {A B} (m : result A) (k : A -> result B) : result B :=
  match m with
  | Ok a => k a
  | Err e => Err e
  end.

Notation "'let*' x ':=' m 'in' k" := (bind m (fun x => k))
  (at level 10, x name, m at level 100, k at level 200,
   format "'[v' 'let*'  x  ':='  m  'in' '/' k ']'").

(** The system's random source: the bytes it will deliver, in order. *)
Definition entropy := nat -> byte.

(** A computation that draws from the random source. *)
Definition rand (A : Type) := entropy -> result A * entropy.

Definition rbind {A B} (m : rand A) (k : A -> rand B) : rand B :=
  fun e =>
    match m e with
    | (Ok a, e') => k a e'
    | (Err x, e') => (Err x, e')
    end.

Definition lift {A} (m : result A) : rand A := fun e => (m, e).

Notation "'let!' x ':=' m 'in' k" := (rbind m (fun x => k))
  (at level 10, x name, m at level 100, k at level 200,
   format "'[v' 'let!'  x  ':='  m  'in' '/' k ']'").

(** The next [n] bytes of the random source, and what is left of it. *)
Definition draw (n : nat) (e : entropy) : bytes * entropy :=
  (map e (seq 0 n), fun i => e (n + i)%nat).

(** [crypto.getRandomValues(new Uint8Array(n))]. *)
Definition getRandomValues (n : nat) : rand bytes :=
  fun e => let (bs, e') := draw n e in (Ok bs, e').

(** ** WebCrypto *)

(** The cryptographic primitives under [webcrypto.subtle]: RSA key
    generation, the SPKI and PKCS8 encodings of RSA keys, RSAES-OAEP with
    SHA-256, and AES in Galois/Counter mode with a 128-bit tag.  They are
    not code of this repository and are left abstract. *)
Class Primitives := {
  rsa_public : Type;
  rsa_private : Type;
  (** modulus length in bits, public exponent, random source *)
  rsa_generate : Z -> Z -> entropy -> (rsa_public * rsa_private) * entropy;
  spki_encode : rsa_public -> bytes;
  spki_parse : bytes -> option rsa_public;
  pkcs8_encode : rsa_private -> bytes;
  pkcs8_parse : bytes -> option rsa_private;
  (** key, seed of 32 bytes, message; [None] when the message is too long *)
  oaep_encrypt : rsa_public -> bytes -> bytes -> option bytes;
  oaep_decrypt : rsa_private -> bytes -> option bytes;
  (** key, IV, plaintext: the ciphertext followed by the tag *)
  gcm_encrypt : bytes -> bytes -> bytes -> bytes;
  (** key, IV, ciphertext followed by the tag; [None] when the tag is wrong *)
  gcm_decrypt : bytes -> bytes -> bytes -> option bytes
}.

(** What RSA-OAEP (2048 bits, SHA-256) guarantees: the SPKI and PKCS8
    encodings parse back, and a message of at most 190 bytes encrypted under
    the public key of a generated pair decrypts under its private key. *)
Class RsaOaepLaws (P : Primitives) : Prop := {
  spki_parse_encode : forall k, spki_parse (spki_encode k) = Some k;
  pkcs8_parse_encode : forall k, pkcs8_parse (pkcs8_encode k) = Some k;
  oaep_decrypt_encrypt :
    forall e pub prv e' seed m,
      rsa_generate 2048 65537 e = (pub, prv, e') ->
      length seed = 32%nat ->
      (length m <= 190)%nat ->
      exists c, oaep_encrypt pub seed m = Some c
                /\ oaep_decrypt prv c = Some m
}.

(** What AES-GCM guarantees for a key of 128, 192 or 256 bits and an IV that
    is not empty: the output is as long as the plaintext plus the 16-byte
    tag, and it decrypts to the plaintext under the same key and IV. *)
Class AesGcmLaws (P : Primitives) : Prop := {
  gcm_encrypt_length :
    forall k iv m, length (gcm_encrypt k iv m) = (length m + 16)%nat;
  gcm_decrypt_encrypt :
    forall k iv m,
      In (length k) [16; 24; 32]%nat ->
      iv <> [] ->
      gcm_decrypt k iv (gcm_encrypt k iv m) = Some m
}.

(** The operations of [webcrypto.subtle] this module calls, with the checks
    the Web Cryptography API prescribes for them (which Node implements):
    the usages a key may be given, the algorithm and usage a key must have
    for an operation, the lengths of AES keys and of AES-GCM data. *)
Module WebCrypto.

Inductive KeyType := public | private | secret.

Inductive KeyUsage :=
| encrypt | decrypt | sign | verify
| deriveKey | deriveBits | wrapKey | unwrapKey.

Inductive KeyFormat := raw | pkcs8 | spki.

Inductive AlgorithmName := RSA_OAEP | AES_GCM.

Definition usage_eqb (u v : KeyUsage) : bool :=
  match u, v with
  | encrypt, encrypt | decrypt, decrypt | sign, sign | verify, verify
  | deriveKey, deriveKey | deriveBits, deriveBits
  | wrapKey, wrapKey | unwrapKey, unwrapKey => true
  | _, _ => false
  end.

Definition has_usage (u : KeyUsage) (us : list KeyUsage) : bool :=
  existsb (usage_eqb u) us.

(** Every requested usage is one of the allowed ones. *)
Definition usages_within (us allowed : list KeyUsage) : bool :=
  forallb (fun u => has_usage u allowed) us.

(** The requested usages that are among the allowed ones. *)
Definition usages_among (us allowed : list KeyUsage) : list KeyUsage :=
  List.filter (fun u => has_usage u allowed) us.

Section Subtle.
Context {P : Primitives}.

(** The key material a [CryptoKey] handles: an RSA-OAEP (SHA-256) public or
    private key, or the raw bytes of an AES-GCM key. *)
Inductive KeyMaterial :=
| RsaPublic (k : rsa_public)
| RsaPrivate (k : rsa_private)
| AesRaw (k : bytes).

Record CryptoKey := {
  material : KeyMaterial;
  extractable : bool;
  usages : list KeyUsage
}.

Definition type (key : CryptoKey) : KeyType :=
  match material key with
  | RsaPublic _ => public
  | RsaPrivate _ => private
  | AesRaw _ => secret
  end.

Definition algorithm_name (key : CryptoKey) : AlgorithmName :=
  match material key with
  | RsaPublic _ | RsaPrivate _ => RSA_OAEP
  | AesRaw _ => AES_GCM
  end.

Definition name_eqb (a b : AlgorithmName) : bool :=
  match a, b with
  | RSA_OAEP, RSA_OAEP | AES_GCM, AES_GCM => true
  | _, _ => false
  end.

(** The parameters of [encrypt] and [decrypt]: [{name: "RSA-OAEP"}] (no
    label) or [{name: "AES-GCM", iv}] (no additional data, 128-bit tag). *)
Inductive AlgorithmParams :=
| RsaOaepParams
| AesGcmParams (iv : bytes).

Definition params_name (a : AlgorithmParams) : AlgorithmName :=
  match a with
  | RsaOaepParams => RSA_OAEP
  | AesGcmParams _ => AES_GCM
  end.

(** [subtle.generateKey({name: "RSA-OAEP", modulusLength, publicExponent,
    hash: "SHA-256"}, extractable, usages)]: the public key is always
    extractable and keeps the usages among encrypt and wrapKey, the private
    key those among decrypt and unwrapKey, of which there must be one. *)
Definition generateKey_rsa (modulusLength publicExponent : Z)
    (extract : bool) (us : list KeyUsage) : rand (CryptoKey * CryptoKey) :=
  fun e =>
    if negb (usages_within us [encrypt; decrypt; wrapKey; unwrapKey])
    then (Err SyntaxError, e)
    else
      let '(pub, prv, e') := rsa_generate modulusLength publicExponent e in
      match usages_among us [decrypt; unwrapKey] with
      | [] => (Err SyntaxError, e')
      | prv_usages =>
          (Ok ({| material := RsaPublic pub; extractable := true;
                  usages := usages_among us [encrypt; wrapKey] |},
               {| material := RsaPrivate prv; extractable := extract;
                  usages := prv_usages |}), e')
      end.

(** [subtle.generateKey({name: "AES-GCM", length}, extractable, usages)]:
    [length / 8] random bytes. *)
Definition generateKey_aes (length : Z) (extract : bool)
    (us : list KeyUsage) : rand CryptoKey :=
  fun e =>
    if negb (usages_within us [encrypt; decrypt; wrapKey; unwrapKey])
    then (Err SyntaxError, e)
    else if negb ((length =? 128) || (length =? 192) || (length =? 256))
    then (Err OperationError, e)
    else
      match us with
      | [] => (Err SyntaxError, e)
      | _ =>
          let (k, e') := draw (Z.to_nat (length / 8)) e in
          (Ok {| material := AesRaw k; extractable := extract;
                 usages := us |}, e')
      end.

(** [subtle.exportKey(format, key)]. *)
Definition exportKey (format : KeyFormat) (key : CryptoKey) : result bytes :=
  if negb (extractable key) then Err InvalidAccessError
  else
    match format, material key with
    | spki, RsaPublic k => Ok (spki_encode k)
    | pkcs8, RsaPrivate k => Ok (pkcs8_encode k)
    | raw, AesRaw k => Ok k
    | spki, RsaPrivate _ | pkcs8, RsaPublic _ => Err InvalidAccessError
    | _, _ => Err NotSupportedError
    end.

(** [subtle.importKey(format, keyData, {name, hash: "SHA-256"}, extractable,
    usages)]. *)
Definition importKey (format : KeyFormat) (keyData : bytes)
    (name : AlgorithmName) (extract : bool) (us : list KeyUsage)
    : result CryptoKey :=
  match name, format with
  | RSA_OAEP, spki =>
      if negb (usages_within us [encrypt; wrapKey]) then Err SyntaxError
      else
        match spki_parse keyData with
        | None => Err DataError
        | Some k =>
            Ok {| material := RsaPublic k; extractable := extract;
                  usages := us |}
        end
  | RSA_OAEP, pkcs8 =>
      if negb (usages_within us [decrypt; unwrapKey]) then Err SyntaxError
      else
        match pkcs8_parse keyData with
        | None => Err DataError
        | Some k =>
            match us with
            | [] => Err SyntaxError
            | _ =>
                Ok {| material := RsaPrivate k; extractable := extract;
                      usages := us |}
            end
        end
  | AES_GCM, raw =>
      if negb (usages_within us [encrypt; decrypt; wrapKey; unwrapKey])
      then Err SyntaxError
      else
        let bits := 8 * Z.of_nat (length keyData) in
        if negb ((bits =? 128) || (bits =? 192) || (bits =? 256))
        then Err DataError
        else
          match us with
          | [] => Err SyntaxError
          | _ =>
              Ok {| material := AesRaw keyData; extractable := extract;
                    usages := us |}
          end
  | _, _ => Err NotSupportedError
  end.

(** [subtle.encrypt(algorithm, key, data)].  RSA-OAEP draws its 32-byte
    seed from the random source. *)
Definition subtle_encrypt (algorithm : AlgorithmParams) (key : CryptoKey)
    (data : bytes) : rand bytes :=
  if negb (name_eqb (params_name algorithm) (algorithm_name key))
  then lift (Err InvalidAccessError)
  else if negb (has_usage encrypt (usages key))
  then lift (Err InvalidAccessError)
  else
    match algorithm, material key with
    | RsaOaepParams, RsaPublic k =>
        let! seed := getRandomValues 32 in
        match oaep_encrypt k seed data with
        | Some c => lift (Ok c)
        | None => lift (Err OperationError)
        end
    | AesGcmParams iv, AesRaw k => lift (Ok (gcm_encrypt k iv data))
    | _, _ => lift (Err InvalidAccessError)
    end.

(** [subtle.decrypt(algorithm, key, data)].  AES-GCM rejects data shorter
    than the 16-byte tag before it decrypts anything. *)
Definition subtle_decrypt (algorithm : AlgorithmParams) (key : CryptoKey)
    (data : bytes) : result bytes :=
  if negb (name_eqb (params_name algorithm) (algorithm_name key))
  then Err InvalidAccessError
  else if negb (has_usage decrypt (usages key))
  then Err InvalidAccessError
  else
    match algorithm, material key with
    | RsaOaepParams, RsaPrivate k =>
        match oaep_decrypt k data with
        | Some m => Ok m
        | None => Err OperationError
        end
    | AesGcmParams iv, AesRaw k =>
        if (length data <? 16)%nat then Err OperationError
        else
          match gcm_decrypt k iv data with
          | Some m => Ok m
          | None => Err OperationError
          end
    | _, _ => Err InvalidAccessError
    end.

End Subtle.

End WebCrypto.

Import WebCrypto.

(** ** [crypto.ts] *)

Section Crypto.
Context {P : Primitives}.

(** [{ publicKey, privateKey }]. *)
Record GenerateRsaKeyPair := {
  publicKey : CryptoKey;
  privateKey : CryptoKey
}.

Definition generateRsaKeyPair : rand GenerateRsaKeyPair :=
  let! pair := generateKey_rsa 2048 0x010001 true [encrypt; decrypt] in
  lift (Ok {| publicKey := fst pair; privateKey := snd pair |}).

Definition exportPubKey (key : CryptoKey) : result jsstring :=
  let* exportedKey := exportKey spki key in
  Ok (arrayBufferToBase64 exportedKey).

(** [null] is [None]; a [CryptoKey] object is never falsy. *)
Definition exportPrvKey (key : option CryptoKey)
    : result (option jsstring) :=
  match key with
  | None => Ok None
  | Some key =>
      let* exportedKey := exportKey pkcs8 key in
      Ok (Some (arrayBufferToBase64 exportedKey))
  end.

Definition importPubKey (strKey : jsstring) : result CryptoKey :=
  let arrayBufferKey := base64ToArrayBuffer strKey in
  let* importedKey := importKey spki arrayBufferKey RSA_OAEP true [encrypt] in
  Ok importedKey.

Definition importPrvKey (strKey : jsstring) : result CryptoKey :=
  let arrayBufferKey := base64ToArrayBuffer strKey in
  let* importedKey := importKey pkcs8 arrayBufferKey RSA_OAEP true [decrypt] in
  Ok importedKey.

Definition rsaEncrypt (b64Data strPublicKey : jsstring) : rand jsstring :=
  let! publicKey := lift (importPubKey strPublicKey) in
  let dataBuffer := base64ToArrayBuffer b64Data in
  let! encryptedBuffer := subtle_encrypt RsaOaepParams publicKey dataBuffer in
  lift (Ok (Base64.encode encryptedBuffer)).

Definition rsaDecrypt (data : jsstring) (privateKey : CryptoKey)
    : result jsstring :=
  let dataBuffer := base64ToArrayBuffer data in
  let* decryptedBuffer := subtle_decrypt RsaOaepParams privateKey dataBuffer in
  Ok (Text.Buffer_toString_utf8 decryptedBuffer).

Definition createRandomSymmetricKey : rand CryptoKey :=
  let! symmetricKey := generateKey_aes 256 true [encrypt; decrypt] in
  lift (Ok symmetricKey).

Definition exportSymKey (key : CryptoKey) : result jsstring :=
  let* exportedKey := exportKey raw key in
  Ok (arrayBufferToBase64 exportedKey).

Definition importSymKey (strKey : jsstring) : result CryptoKey :=
  let arrayBufferKey := base64ToArrayBuffer strKey in
  let* importedKey :=
    importKey raw arrayBufferKey AES_GCM true [encrypt; decrypt] in
  Ok importedKey.

Definition symEncrypt (key : CryptoKey) (data : jsstring) : rand jsstring :=
  let encodedData := stringToUint8Array data in
  let! iv := getRandomValues 12 in
  let! encryptedData := subtle_encrypt (AesGcmParams iv) key encodedData in
  let encryptedDataWithIV := iv ++ encryptedData in
  lift (Ok (Base64.encode encryptedDataWithIV)).

(** [encodedData.slice(0, 12)] is [firstn 12], [encodedData.slice(12)] is
    [skipn 12]: a slice past the end of the buffer is cut at its end. *)
Definition symDecrypt (strKey encryptedData : jsstring) : result jsstring :=
  let* key := importSymKey strKey in
  let encodedData := base64ToArrayBuffer encryptedData in
  let* decryptedData :=
    subtle_decrypt (AesGcmParams (firstn 12 encodedData)) key
                   (skipn 12 encodedData) in
  Ok (uint8ArrayToString decryptedData).

(** The steps of [symDecrypt] with [webcrypto.subtle.decrypt] replaced by
    [decrypt]: what [symDecrypt] does by itself. *)
Definition symDecrypt_with
    (decrypt : AlgorithmParams -> CryptoKey -> bytes -> result bytes)
    (strKey encryptedData : jsstring) : result jsstring :=
  let* key := importSymKey strKey in
  let encodedData := base64ToArrayBuffer encryptedData in
  let* decryptedData :=
    decrypt (AesGcmParams (firstn 12 encodedData)) key
            (skipn 12 encodedData) in
  Ok (uint8ArrayToString decryptedData).

(** A stand-in for [decrypt] that accepts every call and returns the IV it
    was called with. *)
Definition return_iv (algorithm : AlgorithmParams) (key : CryptoKey)
    (data : bytes) : result bytes :=
  match algorithm with
  | AesGcmParams iv => Ok iv
  | RsaOaepParams => Ok []
  end.

(** The keys of this module: an extractable AES-GCM key for encryption and
    decryption, as [createRandomSymmetricKey] and [importSymKey] make them. *)
Definition aes_key (keyData : bytes) : CryptoKey :=
  {| material := AesRaw keyData; extractable := true;
     usages := [encrypt; decrypt] |}.

(** A symmetric key of this module: one that [createRandomSymmetricKey]
    generated or [importSymKey] imported. *)
Definition symmetric_key (key : CryptoKey) : Prop :=
  (exists e, fst (createRandomSymmetricKey e) = Ok key)
  \/ (exists strKey, importSymKey strKey = Ok key).

End Crypto.

(** ** A small instance of the primitives

    Enough to run the functions above on concrete inputs, and to see that
    the laws above can be met: an RSA key is the four random bytes it was
    generated from, OAEP prefixes the message with the key and the seed,
    and GCM appends a tag of sixteen zero bytes. *)

Module Toy.

Fixpoint bytes_eqb (a b : bytes) : bool :=
  match a, b with
  | [], [] => true
  | x :: a', y :: b' => Byte.eqb x y && bytes_eqb a' b'
  | _, _ => false
  end.

Definition toy_generate (_ _ : Z) (e : entropy) : (bytes * bytes) * entropy :=
  let (k, e') := draw 4 e in (k, k, e').

Definition toy_oaep_encrypt (k seed m : bytes) : option bytes :=
  if (length m <=? 190)%nat then Some (k ++ seed ++ m) else None.

Definition toy_oaep_decrypt (k c : bytes) : option bytes :=
  if bytes_eqb (firstn (length k) c) k
  then Some (skipn (length k + 32) c) else None.

Definition toy_gcm_encrypt (k iv m : bytes) : bytes := m ++ repeat x00 16.

Definition toy_gcm_decrypt (k iv c : bytes) : option bytes :=
  if bytes_eqb (skipn (length c - 16) c) (repeat x00 16)
  then Some (firstn (length c - 16) c) else None.

Definition primitives : Primitives := {|
  rsa_public := bytes;
  rsa_private := bytes;
  rsa_generate := toy_generate;
  spki_encode := fun k => k;
  spki_parse := fun bs => Some bs;
  pkcs8_encode := fun k => k;
  pkcs8_parse := fun bs => Some bs;
  oaep_encrypt := toy_oaep_encrypt;
  oaep_decrypt := toy_oaep_decrypt;
  gcm_encrypt := toy_gcm_encrypt;
  gcm_decrypt := toy_gcm_decrypt
|}.

(** A random source that counts: 0, 1, 2, ... *)
Definition counting : entropy := fun i => z2b (Z.of_nat i).

(** The key [createRandomSymmetricKey] generates from the counting source,
    and the source after it. *)
Definition run_key : CryptoKey (P := primitives) :=
  aes_key (fst (draw 32 counting)).

Definition run_rest : entropy := snd (draw 32 counting).

End Toy.

(** ** The registry ([launchRegistry]) *)

Module Registry.

(** [Node]: the [nodeId] is a number read from a JSON body, which is never
    [NaN], so [===] on it is equality. *)
Record Node := {
  nodeId : Z;
  pubKey : jsstring
}.

Record RegisterNodeBody := {
  body_nodeId : Z;
  body_pubKey : jsstring
}.

(** What [parseInt] returns: an integer, or [NaN] ([None]). *)
Definition number := option Z.

(** An entry of [nodeKeys]. *)
Record NodeKey := {
  privateKey : jsstring;
  publicKey : jsstring
}.

(** The two module-level stores: the object [nodeKeys], a map from the
    property key a number makes to an entry, and the array [nodes]. *)
Record store := {
  nodeKeys : gmap number NodeKey;
  nodes : list Node
}.

(** Both stores start empty. *)
Definition empty_store : store := {| nodeKeys := ∅; nodes := [] |}.

Inductive body :=
| send (text : string)
| json_result (result : jsstring)
| json_nodes (nodes : list Node).

Record response := {
  status : Z;
  payload : body
}.

(** [GET /status]. *)
Definition getStatus (s : store) : store * response :=
  (s, {| status := 200; payload := send "live" |}).

(** [POST /registerNode]: [nodes.find] returns the first node with the
    body's [nodeId], or [undefined]. *)
Definition registerNode (b : RegisterNodeBody) (s : store)
    : store * response :=
  match find (fun node => nodeId node =? body_nodeId b) (nodes s) with
  | Some _ =>
      (s, {| status := 400; payload := send "Node already registered." |})
  | None =>
      ({| nodeKeys := nodeKeys s;
          nodes := nodes s
                   ++ [{| nodeId := body_nodeId b; pubKey := body_pubKey b |}]
       |},
       {| status := 201; payload := send "Node registered successfully." |})
  end.

(** [GET /getPrivateKey]: [n] is [parseInt(req.query.nodeId)].
    [Buffer.from(str)] is the UTF-8 encoding of the string. *)
Definition getPrivateKey (n : number) (s : store) : store * response :=
  match nodeKeys s !! n with
  | None =>
      (s, {| status := 404;
             payload := send "Node not found or key not generated." |})
  | Some nodeKey =>
      (s, {| status := 200;
             payload := json_result
                          (Base64.encode
                             (Text.TextEncoder_encode (privateKey nodeKey)))
          |})
  end.

(** [GET /getNodeRegistry]. *)
Definition getNodeRegistry (s : store) : store * response :=
  (s, {| status := 200; payload := json_nodes (nodes s) |}).

Inductive request :=
| GET_status
| POST_registerNode (b : RegisterNodeBody)
| GET_getPrivateKey (n : number)
| GET_getNodeRegistry.

Definition handle (s : store) (r : request) : store * response :=
  match r with
  | GET_status => getStatus s
  | POST_registerNode b => registerNode b s
  | GET_getPrivateKey n => getPrivateKey n s
  | GET_getNodeRegistry => getNodeRegistry s
  end.

(** The server handles the requests one after the other; the store after a
    sequence of requests, and the responses sent. *)
Fixpoint serve (s : store) (rs : list request) : store * list response :=
  match rs with
  | [] => (s, [])
  | r :: rest =>
      let (s', resp) := handle s r in
      let (s'', resps) := serve s' rest in
      (s'', resp :: resps)
  end.

(** The nodes of a listing that carry a given [nodeId]. *)
Definition has_id (id : Z) (node : Node) : bool := nodeId node =? id.

(** The [nodeId]s the registration requests of a sequence carry. *)
Definition registrations (rs : list request) : list Z :=
  flat_map (fun r => match r with
                     | POST_registerNode b => [body_nodeId b]
                     | _ => []
                     end) rs.

End Registry.

(** ** Notions for the further properties *)

(** What the UTF-8 decoder holds while a sequence is pending: after the
    lead byte of a two-, three- or four-byte sequence and after each
    continuation byte, the bits read so far and the boundaries for the next
    byte. *)
Definition pending (d : Text.decoder) : Prop :=
  let cp := Text.code_point d in
  let plain := Text.lower_boundary d = 0x80 /\ Text.upper_boundary d = 0xBF in
  Text.bytes_needed d = 0
  \/ (Text.bytes_needed d = 1 /\ Text.bytes_seen d = 0
      /\ 2 <= cp <= 31 /\ plain)
  \/ (Text.bytes_needed d = 2 /\ Text.bytes_seen d = 0
      /\ 0 <= cp <= 15
      /\ Text.lower_boundary d = (if cp =? 0 then 0xA0 else 0x80)
      /\ Text.upper_boundary d = (if cp =? 13 then 0x9F else 0xBF))
  \/ (Text.bytes_needed d = 2 /\ Text.bytes_seen d = 1
      /\ 0x20 <= cp <= 0x3FF /\ ~ (0x360 <= cp <= 0x37F) /\ plain)
  \/ (Text.bytes_needed d = 3 /\ Text.bytes_seen d = 0
      /\ 0 <= cp <= 4
      /\ Text.lower_boundary d = (if cp =? 0 then 0x90 else 0x80)
      /\ Text.upper_boundary d = (if cp =? 4 then 0x8F else 0xBF))
  \/ (Text.bytes_needed d = 3 /\ Text.bytes_seen d = 1
      /\ 0x10 <= cp <= 0x10F /\ plain)
  \/ (Text.bytes_needed d = 3 /\ Text.bytes_seen d = 2
      /\ 0x400 <= cp <= 0x43FF /\ plain).

(** A character of base64 text: one of the alphabet, or the padding. *)
Definition base64_char (c : Z) : Prop :=
  In c Base64.alphabet \/ c = Base64.pad.

Module Listing.
Import Registry.

(** The node a registration adds. *)
Definition node_of (b : RegisterNodeBody) : Node :=
  {| nodeId := body_nodeId b; pubKey := body_pubKey b |}.

(** The bodies of the registration requests of a sequence, in order. *)
Definition bodies (rs : list request) : list RegisterNodeBody :=
  flat_map (fun r => match r with
                     | POST_registerNode b => [b]
                     | _ => []
                     end) rs.

(** The registrations with every later registration of an already
    registered [nodeId] removed. *)
Fixpoint first_registrations (bs : list RegisterNodeBody) : list Node :=
  match bs with
  | [] => []
  | b :: rest =>
      node_of b
      :: List.filter (fun node => negb (nodeId node =? body_nodeId b))
           (first_registrations rest)
  end.

(** A request that is no registration. *)
Definition read_only (r : request) : bool :=
  match r with
  | POST_registerNode _ => false
  | _ => true
  end.

(** The node's [nodeId] is none of [ids]. *)
Definition fresh (ids : list Z) (node : Node) : bool :=
  negb (existsb (Z.eqb (nodeId node)) ids).

End Listing.

(* ===================================================================== *)
(** * Part II. Properties *)
(* ===================================================================== *)

(** ** Bytes and bit arithmetic *)

Lemma b2z_range (b : byte) : 0 <= b2z b < 256.
Proof.
  unfold b2z. pose proof (Byte.to_N_bounded b). lia.
Qed.

Lemma b2z_z2b (z : Z) : 0 <= z < 256 -> b2z (z2b z) = z.
Proof.
  intros Hz. unfold z2b, b2z.
  rewrite Z.mod_small by lia.
  destruct (Byte.of_N (Z.to_N z)) as [b|] eqn:E.
  - apply Byte.to_of_N in E. lia.
  - apply Byte.of_N_None_iff in E. lia.
Qed.

Lemma z2b_b2z (b : byte) : z2b (b2z b) = b.
Proof.
  unfold z2b, b2z. pose proof (Byte.to_N_bounded b).
  rewrite Z.mod_small by lia. rewrite N2Z.id, Byte.of_to_N. reflexivity.
Qed.

Lemma z2b_eq (z : Z) (b : byte) : z = b2z b -> z2b z = b.
Proof. intros ->. apply z2b_b2z. Qed.

(** A boolean property checked on [0 .. n-1] holds on that range. *)
Lemma forall_below (n : nat) (p : Z -> bool) :
  forallb p (map Z.of_nat (seq 0 n)) = true ->
  forall v, 0 <= v < Z.of_nat n -> p v = true.
Proof.
  intros H v Hv. rewrite forallb_forall in H. apply H.
  apply in_map_iff. exists (Z.to_nat v). split; [lia|].
  apply in_seq. lia.
Qed.

(** Bits that do not overlap add up. *)
Lemma lor_disjoint (a b n : Z) :
  0 <= n -> 0 <= b < 2 ^ n -> Z.lor (a * 2 ^ n) b = a * 2 ^ n + b.
Proof.
  intros Hn Hb.
  assert (H0 : Z.land (a * 2 ^ n) b = 0).
  { apply Z.bits_inj'. intros i Hi. rewrite Z.land_spec, Z.bits_0.
    destruct (Z.lt_ge_cases i n).
    - rewrite Z.mul_pow2_bits_low by lia. reflexivity.
    - rewrite <- (Z.mod_small b (2 ^ n)) by lia.
      rewrite Z.mod_pow2_bits_high by lia. apply andb_false_r. }
  rewrite Z.add_nocarry_lxor by exact H0. symmetry. apply Z.lxor_lor. exact H0.
Qed.

Lemma land_low (x n : Z) : 0 <= n -> Z.land x (2 ^ n - 1) = x mod 2 ^ n.
Proof.
  intros Hn. rewrite <- Z.land_ones by exact Hn.
  rewrite Z.ones_equiv, <- Z.sub_1_r. reflexivity.
Qed.

Lemma land_3 x : Z.land x 3 = x mod 4.
Proof. exact (land_low x 2 ltac:(lia)). Qed.

Lemma land_7 x : Z.land x 7 = x mod 8.
Proof. exact (land_low x 3 ltac:(lia)). Qed.

Lemma land_15 x : Z.land x 15 = x mod 16.
Proof. exact (land_low x 4 ltac:(lia)). Qed.

Lemma land_31 x : Z.land x 31 = x mod 32.
Proof. exact (land_low x 5 ltac:(lia)). Qed.

Lemma land_63 x : Z.land x 63 = x mod 64.
Proof. exact (land_low x 6 ltac:(lia)). Qed.

Lemma land_1023 x : Z.land x 1023 = x mod 1024.
Proof. exact (land_low x 10 ltac:(lia)). Qed.

Lemma lor_128 y : 0 <= y < 64 -> Z.lor 128 y = 128 + y.
Proof. intros Hy. exact (lor_disjoint 2 y 6 ltac:(lia) Hy). Qed.

Lemma lor_shiftl (x y n : Z) :
  0 <= n -> 0 <= y < 2 ^ n -> Z.lor (Z.shiftl x n) y = x * 2 ^ n + y.
Proof.
  intros Hn Hy. rewrite Z.shiftl_mul_pow2 by exact Hn.
  apply lor_disjoint; assumption.
Qed.

(** Division and remainder by a constant, for [lia]. *)
Ltac euclid := Z.div_mod_to_equations; lia.

(** ** Base64 *)

Lemma list_ind3 {A} (Q : list A -> Prop) :
  Q [] ->
  (forall a, Q [a]) ->
  (forall a b, Q [a; b]) ->
  (forall a b c l, Q l -> Q (a :: b :: c :: l)) ->
  forall l, Q l.
Proof.
  intros H0 H1 H2 H3.
  fix IH 1. intros [|a [|b [|c l]]].
  - exact H0.
  - apply H1.
  - apply H2.
  - apply H3. apply IH.
Qed.

Lemma unbase64_char (v : Z) :
  0 <= v < 64 ->
  Base64.unbase64 (Z.land (Base64.char v) 0xFF) = Some v.
Proof.
  intros Hv.
  pose (p := fun v =>
               match Base64.unbase64 (Z.land (Base64.char v) 0xFF) with
               | Some w => w =? v
               | None => false
               end).
  assert (Hp : p v = true).
  { apply (forall_below 64); [vm_compute; reflexivity | lia]. }
  unfold p in Hp.
  destruct (Base64.unbase64 (Z.land (Base64.char v) 0xFF)) as [w|];
    [|discriminate].
  apply Z.eqb_eq in Hp. congruence.
Qed.

Lemma sextets_char (v : Z) (s : jsstring) :
  0 <= v < 64 ->
  Base64.sextets (Base64.char v :: s) = v :: Base64.sextets s.
Proof.
  intros Hv. cbn [Base64.sextets]. cbv zeta.
  rewrite unbase64_char by exact Hv. reflexivity.
Qed.

Lemma sextets_pad (s : jsstring) : Base64.sextets (Base64.pad :: s) = [].
Proof. reflexivity. Qed.

(** The two middle masks of [pack], on a 6-bit value. *)
Lemma mask_48 (v : Z) : 0 <= v < 64 -> Z.shiftr (Z.land v 48) 4 = v / 16.
Proof.
  intros Hv. apply Z.eqb_eq.
  apply (forall_below 64 (fun v => Z.shiftr (Z.land v 48) 4 =? v / 16));
    [vm_compute; reflexivity | lia].
Qed.

Lemma mask_60 (v : Z) : 0 <= v < 64 -> Z.shiftr (Z.land v 60) 2 = v / 4.
Proof.
  intros Hv. apply Z.eqb_eq.
  apply (forall_below 64 (fun v => Z.shiftr (Z.land v 60) 2 =? v / 4));
    [vm_compute; reflexivity | lia].
Qed.

(** The four 6-bit values of three bytes, and the bytes back. *)
Lemma sextet_0 a : 0 <= a < 256 -> 0 <= Z.shiftr a 2 < 64.
Proof. intros. rewrite Z.shiftr_div_pow2 by lia. change (2 ^ 2) with 4. euclid. Qed.

Lemma sextet_1 a b :
  0 <= a < 256 -> 0 <= b < 256 ->
  Z.lor (Z.shiftl (Z.land a 3) 4) (Z.shiftr b 4) = a mod 4 * 16 + b / 16.
Proof.
  intros. rewrite land_3, Z.shiftr_div_pow2 by lia.
  rewrite lor_shiftl; change (2 ^ 4) with 16; [reflexivity | lia | euclid].
Qed.

Lemma sextet_1_end a : Z.shiftl (Z.land a 3) 4 = a mod 4 * 16.
Proof. rewrite land_3, Z.shiftl_mul_pow2 by lia. reflexivity. Qed.

Lemma sextet_2 b c :
  0 <= b < 256 -> 0 <= c < 256 ->
  Z.lor (Z.shiftl (Z.land b 15) 2) (Z.shiftr c 6) = b mod 16 * 4 + c / 64.
Proof.
  intros. rewrite land_15, Z.shiftr_div_pow2 by lia.
  rewrite lor_shiftl; change (2 ^ 2) with 4; change (2 ^ 6) with 64;
    [reflexivity | lia | euclid].
Qed.

Lemma sextet_2_end b : Z.shiftl (Z.land b 15) 2 = b mod 16 * 4.
Proof. rewrite land_15, Z.shiftl_mul_pow2 by lia. reflexivity. Qed.

Lemma pack_byte_0 v0 v1 :
  0 <= v0 < 64 -> 0 <= v1 < 64 ->
  Z.lor (Z.shiftl (Z.land v0 63) 2) (Z.shiftr (Z.land v1 48) 4)
  = v0 * 4 + v1 / 16.
Proof.
  intros. rewrite land_63, mask_48 by lia.
  rewrite lor_shiftl; change (2 ^ 2) with 4; [euclid | lia | euclid].
Qed.

Lemma pack_byte_1 v1 v2 :
  0 <= v1 < 64 -> 0 <= v2 < 64 ->
  Z.lor (Z.shiftl (Z.land v1 15) 4) (Z.shiftr (Z.land v2 60) 2)
  = v1 mod 16 * 16 + v2 / 4.
Proof.
  intros. rewrite land_15, mask_60 by lia.
  rewrite lor_shiftl; change (2 ^ 4) with 16; [reflexivity | lia | euclid].
Qed.

Lemma pack_byte_2 v2 v3 :
  0 <= v2 < 64 -> 0 <= v3 < 64 ->
  Z.lor (Z.shiftl (Z.land v2 3) 6) (Z.land v3 63) = v2 mod 4 * 64 + v3.
Proof.
  intros. rewrite land_3, land_63.
  rewrite lor_shiftl; change (2 ^ 6) with 64; [euclid | lia | euclid].
Qed.

Lemma encode_3 a b c l :
  Base64.encode (a :: b :: c :: l)
  = [Base64.char (Z.shiftr (b2z a) 2);
     Base64.char (Z.lor (Z.shiftl (Z.land (b2z a) 3) 4) (Z.shiftr (b2z b) 4));
     Base64.char (Z.lor (Z.shiftl (Z.land (b2z b) 15) 2) (Z.shiftr (b2z c) 6));
     Base64.char (Z.land (b2z c) 63)] ++ Base64.encode l.
Proof. reflexivity. Qed.

Lemma pack_4 v0 v1 v2 v3 l :
  Base64.pack (v0 :: v1 :: v2 :: v3 :: l)
  = z2b (Z.lor (Z.shiftl (Z.land v0 63) 2) (Z.shiftr (Z.land v1 48) 4))
    :: z2b (Z.lor (Z.shiftl (Z.land v1 15) 4) (Z.shiftr (Z.land v2 60) 2))
    :: z2b (Z.lor (Z.shiftl (Z.land v2 3) 6) (Z.land v3 63))
    :: Base64.pack l.
Proof. reflexivity. Qed.

(** A 6-bit value of [encode] is in range. *)
Ltac sextet_range :=
  first [ apply sextet_0; lia
        | rewrite sextet_1 by lia; euclid
        | rewrite sextet_2 by lia; euclid
        | rewrite sextet_1_end; euclid
        | rewrite sextet_2_end; euclid
        | rewrite land_63; euclid ].

Ltac sextet_arith :=
  rewrite ?sextet_1, ?sextet_2, ?sextet_1_end, ?sextet_2_end, ?land_63,
    ?Z.shiftr_div_pow2 by lia;
  change (2 ^ 2) with 4; euclid.

(** Decoding what [toString("base64")] produced gives the bytes back. *)
Lemma decode_encode (bs : bytes) : Base64.decode (Base64.encode bs) = bs.
Proof.
  unfold Base64.decode.
  induction bs as [|a|a b|a b c l IH] using list_ind3.
  - reflexivity.
  - pose proof (b2z_range a) as Ha.
    cbn [Base64.encode].
    do 2 (rewrite sextets_char by sextet_range).
    rewrite sextets_pad. cbn [Base64.pack].
    f_equal. apply z2b_eq.
    rewrite pack_byte_0 by sextet_range. sextet_arith.
  - pose proof (b2z_range a) as Ha. pose proof (b2z_range b) as Hb.
    cbn [Base64.encode].
    do 3 (rewrite sextets_char by sextet_range).
    rewrite sextets_pad. cbn [Base64.pack].
    f_equal; [|f_equal]; apply z2b_eq.
    + rewrite pack_byte_0 by sextet_range. sextet_arith.
    + rewrite pack_byte_1 by sextet_range. sextet_arith.
  - pose proof (b2z_range a) as Ha. pose proof (b2z_range b) as Hb.
    pose proof (b2z_range c) as Hc.
    rewrite encode_3. cbn [app].
    do 4 (rewrite sextets_char by sextet_range).
    rewrite pack_4, IH.
    f_equal; [|f_equal; [|f_equal]]; apply z2b_eq.
    + rewrite pack_byte_0 by sextet_range. sextet_arith.
    + rewrite pack_byte_1 by sextet_range. sextet_arith.
    + rewrite pack_byte_2 by sextet_range. sextet_arith.
Qed.

(** X3: [base64ToArrayBuffer] gives back the bytes of every buffer that
    [arrayBufferToBase64] encoded, so the encoding loses nothing. *)
Theorem base64_roundtrip (buffer : bytes) :
  base64ToArrayBuffer (arrayBufferToBase64 buffer) = buffer
  /\ forall other,
       arrayBufferToBase64 other = arrayBufferToBase64 buffer ->
       other = buffer.
Proof.
  split; [apply decode_encode|].
  intros other H. unfold arrayBufferToBase64 in H.
  rewrite <- (decode_encode other), <- (decode_encode buffer), H.
  reflexivity.
Qed.

Lemma encode_inj (a b : bytes) : Base64.encode a = Base64.encode b -> a = b.
Proof.
  intros H. rewrite <- (decode_encode a), <- (decode_encode b), H.
  reflexivity.
Qed.

(** ** UTF-8 *)

Ltac split_leb :=
  repeat match goal with
    | |- context [?a <=? ?b] => destruct (Z.leb_spec a b); try lia
    | |- context [?a <? ?b] => destruct (Z.ltb_spec a b); try lia
    | |- context [?a =? ?b] => destruct (Z.eqb_spec a b); try lia
    end.

Lemma run_cons d b rest :
  Text.run d (b :: rest)
  = (let (out, d') := Text.step d (b2z b) in out ++ Text.run d' rest).
Proof. reflexivity. Qed.

Lemma step_initial b : Text.step Text.initial b = Text.start b.
Proof. reflexivity. Qed.

Lemma start_1 b : 0 <= b <= 0x7F -> Text.start b = ([b], Text.initial).
Proof. intros Hb. unfold Text.start. split_leb. reflexivity. Qed.

Lemma start_2 b :
  0xC2 <= b <= 0xDF ->
  Text.start b
  = ([], {| Text.code_point := Z.land b 0x1F; Text.bytes_seen := 0;
            Text.bytes_needed := 1;
            Text.lower_boundary := 0x80; Text.upper_boundary := 0xBF |}).
Proof. intros Hb. unfold Text.start. split_leb. reflexivity. Qed.

Lemma start_3 b :
  0xE0 <= b <= 0xEF ->
  Text.start b
  = ([], {| Text.code_point := Z.land b 0xF; Text.bytes_seen := 0;
            Text.bytes_needed := 2;
            Text.lower_boundary := if b =? 0xE0 then 0xA0 else 0x80;
            Text.upper_boundary := if b =? 0xED then 0x9F else 0xBF |}).
Proof.
  intros Hb. unfold Text.start.
  destruct (Z.leb_spec b 0x7F); [lia|].
  destruct (Z.leb_spec 0xC2 b); [|lia].
  destruct (Z.leb_spec b 0xDF); [lia|].
  destruct (Z.leb_spec 0xE0 b); [|lia].
  destruct (Z.leb_spec b 0xEF); [|lia].
  reflexivity.
Qed.

Lemma start_4 b :
  0xF0 <= b <= 0xF4 ->
  Text.start b
  = ([], {| Text.code_point := Z.land b 0x7; Text.bytes_seen := 0;
            Text.bytes_needed := 3;
            Text.lower_boundary := if b =? 0xF0 then 0x90 else 0x80;
            Text.upper_boundary := if b =? 0xF4 then 0x8F else 0xBF |}).
Proof.
  intros Hb. unfold Text.start.
  destruct (Z.leb_spec b 0x7F); [lia|].
  destruct (Z.leb_spec 0xC2 b); [|lia].
  destruct (Z.leb_spec b 0xDF); [lia|].
  destruct (Z.leb_spec 0xE0 b); [|lia].
  destruct (Z.leb_spec b 0xEF); [lia|].
  destruct (Z.leb_spec 0xF0 b); [|lia].
  destruct (Z.leb_spec b 0xF4); [|lia].
  reflexivity.
Qed.

(** A continuation byte within the boundaries of the pending sequence:
    the last one of the sequence emits the code point, another one is
    accumulated. *)
Lemma step_last cp seen needed lo hi b :
  needed <> 0 -> lo <= b <= hi -> seen + 1 = needed ->
  Text.step {| Text.code_point := cp; Text.bytes_seen := seen;
               Text.bytes_needed := needed;
               Text.lower_boundary := lo; Text.upper_boundary := hi |} b
  = ([Z.lor (Z.shiftl cp 6) (Z.land b 0x3F)], Text.initial).
Proof.
  intros Hn Hb Hs. unfold Text.step. cbn [Text.bytes_needed Text.lower_boundary
    Text.upper_boundary Text.code_point Text.bytes_seen].
  destruct (Z.eqb_spec needed 0); [lia|].
  destruct (Z.leb_spec lo b); [|lia].
  destruct (Z.leb_spec b hi); [|lia].
  destruct (Z.eqb_spec (seen + 1) needed); [|lia].
  reflexivity.
Qed.

Lemma step_more cp seen needed lo hi b :
  needed <> 0 -> lo <= b <= hi -> seen + 1 <> needed ->
  Text.step {| Text.code_point := cp; Text.bytes_seen := seen;
               Text.bytes_needed := needed;
               Text.lower_boundary := lo; Text.upper_boundary := hi |} b
  = ([], {| Text.code_point := Z.lor (Z.shiftl cp 6) (Z.land b 0x3F);
            Text.bytes_seen := seen + 1;
            Text.bytes_needed := needed;
            Text.lower_boundary := 0x80;
            Text.upper_boundary := 0xBF |}).
Proof.
  intros Hn Hb Hs. unfold Text.step. cbn [Text.bytes_needed Text.lower_boundary
    Text.upper_boundary Text.code_point Text.bytes_seen].
  destruct (Z.eqb_spec needed 0); [lia|].
  destruct (Z.leb_spec lo b); [|lia].
  destruct (Z.leb_spec b hi); [|lia].
  destruct (Z.eqb_spec (seen + 1) needed); [lia|].
  reflexivity.
Qed.

(** The continuation byte that carries the six bits [x]. *)
Lemma continuation_byte x :
  0 <= x -> b2z (z2b (Z.lor 0x80 (Z.land x 0x3F))) = 128 + x mod 64.
Proof.
  intros Hx. rewrite land_63, lor_128 by euclid. apply b2z_z2b. euclid.
Qed.

Lemma accumulate cp b :
  128 <= b < 192 ->
  Z.lor (Z.shiftl cp 6) (Z.land b 0x3F) = cp * 64 + (b - 128).
Proof.
  intros Hb. rewrite land_63.
  rewrite lor_shiftl; change (2 ^ 6) with 64; euclid.
Qed.

Ltac shifts :=
  rewrite ?Z.shiftr_div_pow2 by lia;
  change (2 ^ 6) with 64 in *; change (2 ^ 12) with 4096 in *;
  change (2 ^ 18) with 262144 in *.

(** The decoder reads the encoding of a scalar value back as that value. *)
Lemma run_encode_cp (c : Z) (rest : bytes) :
  Text.scalar c ->
  Text.run Text.initial (Text.utf8_encode_cp c ++ rest)
  = c :: Text.run Text.initial rest.
Proof.
  intros Hc. unfold Text.scalar in Hc. unfold Text.utf8_encode_cp.
  destruct (Z.ltb_spec c 0x80);
    [|destruct (Z.ltb_spec c 0x800); [|destruct (Z.ltb_spec c 0x10000)]];
    cbn [app].
  - rewrite run_cons, step_initial, b2z_z2b by lia.
    rewrite start_1 by lia. reflexivity.
  - rewrite run_cons, step_initial. shifts.
    rewrite b2z_z2b by euclid. rewrite start_2 by euclid.
    cbn [app]. rewrite run_cons, continuation_byte by lia.
    rewrite step_last by euclid. cbn [app].
    f_equal. rewrite land_31. rewrite accumulate by euclid. euclid.
  - rewrite run_cons, step_initial. shifts.
    rewrite b2z_z2b by euclid. rewrite start_3 by euclid.
    cbn [app]. rewrite run_cons, continuation_byte by euclid.
    rewrite step_more by (split_leb; euclid). cbn [app].
    rewrite run_cons, continuation_byte by lia.
    rewrite step_last by euclid. cbn [app].
    f_equal. rewrite land_15. rewrite !accumulate by euclid. euclid.
  - rewrite run_cons, step_initial. shifts.
    rewrite b2z_z2b by euclid. rewrite start_4 by euclid.
    cbn [app]. rewrite run_cons, continuation_byte by euclid.
    rewrite step_more by (split_leb; euclid). cbn [app].
    rewrite run_cons, continuation_byte by euclid.
    rewrite step_more by euclid. cbn [app].
    rewrite run_cons, continuation_byte by euclid.
    rewrite step_last by euclid. cbn [app].
    f_equal. rewrite land_7. rewrite !accumulate by euclid. euclid.
Qed.

Lemma utf8_encode_cons c cs :
  Text.utf8_encode (c :: cs) = Text.utf8_encode_cp c ++ Text.utf8_encode cs.
Proof. reflexivity. Qed.

(** Decoding the UTF-8 encoding of scalar values gives them back. *)
Lemma utf8_decode_encode (cs : list Z) :
  Forall Text.scalar cs -> Text.utf8_decode (Text.utf8_encode cs) = cs.
Proof.
  unfold Text.utf8_decode.
  induction 1 as [|c cs Hc _ IH].
  - reflexivity.
  - rewrite utf8_encode_cons, run_encode_cp by exact Hc.
    rewrite IH. reflexivity.
Qed.

(** The byte order mark is removed only when its three bytes lead. *)
Lemma strip_bom_first b0 bs :
  b2z b0 <> 0xEF -> Text.strip_bom (b0 :: bs) = b0 :: bs.
Proof.
  intros Hb. destruct bs as [|b1 [|b2 bs]]; try reflexivity.
  unfold Text.strip_bom.
  destruct (Z.eqb_spec (b2z b0) 0xEF); [contradiction|]. reflexivity.
Qed.

Lemma strip_bom_three b0 b1 b2 bs :
  ~ (b2z b0 = 0xEF /\ b2z b1 = 0xBB /\ b2z b2 = 0xBF) ->
  Text.strip_bom (b0 :: b1 :: b2 :: bs) = b0 :: b1 :: b2 :: bs.
Proof.
  intros Hb. unfold Text.strip_bom.
  destruct (Z.eqb_spec (b2z b0) 0xEF); [|reflexivity].
  destruct (Z.eqb_spec (b2z b1) 0xBB); [|reflexivity].
  destruct (Z.eqb_spec (b2z b2) 0xBF); [|reflexivity].
  exfalso. apply Hb. auto.
Qed.

(** The encoding of a scalar value other than U+FEFF does not start with a
    byte order mark. *)
Lemma strip_bom_encode_cp (c : Z) (rest : bytes) :
  Text.scalar c -> c <> Text.BOM ->
  Text.strip_bom (Text.utf8_encode_cp c ++ rest)
  = Text.utf8_encode_cp c ++ rest.
Proof.
  intros Hc Hbom. unfold Text.scalar in Hc. unfold Text.BOM in Hbom.
  unfold Text.utf8_encode_cp.
  destruct (Z.ltb_spec c 0x80);
    [|destruct (Z.ltb_spec c 0x800); [|destruct (Z.ltb_spec c 0x10000)]];
    cbn [app].
  - apply strip_bom_first. rewrite b2z_z2b by lia. lia.
  - apply strip_bom_first. shifts. rewrite b2z_z2b by euclid. euclid.
  - apply strip_bom_three. shifts.
    rewrite b2z_z2b by euclid. rewrite !continuation_byte by euclid.
    euclid.
  - apply strip_bom_first. shifts. rewrite b2z_z2b by euclid. euclid.
Qed.

(** ** UTF-16 *)

Lemma is_lead_spec u :
  Text.is_lead u = true <-> 0xD800 <= u <= 0xDBFF.
Proof. unfold Text.is_lead. lia. Qed.

Lemma is_trail_spec u :
  Text.is_trail u = true <-> 0xDC00 <= u <= 0xDFFF.
Proof. unfold Text.is_trail. lia. Qed.

(** A surrogate pair and its code point. *)
Lemma pair_code_point u v :
  0xD800 <= u <= 0xDBFF -> 0xDC00 <= v <= 0xDFFF ->
  let c := 0x10000 + Z.shiftl (u - 0xD800) 10 + (v - 0xDC00) in
  Text.scalar c /\ Text.code_units_of c = [u; v].
Proof.
  intros Hu Hv c. subst c. rewrite Z.shiftl_mul_pow2 by lia.
  change (2 ^ 10) with 1024. split.
  - unfold Text.scalar. lia.
  - unfold Text.code_units_of.
    destruct (Z.ltb_spec (65536 + (u - 55296) * 1024 + (v - 56320)) 65536);
      [lia|].
    rewrite land_1023, Z.shiftr_div_pow2 by lia. change (2 ^ 10) with 1024.
    f_equal; [|f_equal]; euclid.
Qed.

(** On a well-formed string the conversion to scalar values loses
    nothing. *)
Lemma to_scalars_well_formed (n : nat) :
  forall s,
    (length s <= n)%nat -> js_string s -> Text.isWellFormed s = true ->
    Forall Text.scalar (Text.to_scalars s)
    /\ Text.from_code_points (Text.to_scalars s) = s.
Proof.
  induction n as [|n IH]; intros s Hlen Hs Hwf.
  - destruct s; [split; [constructor | reflexivity] | simpl in Hlen; lia].
  - destruct s as [|u rest]; [split; [constructor | reflexivity]|].
    apply Forall_cons_iff in Hs as [Hu Hrest]. unfold code_unit in Hu.
    cbn [Text.to_scalars Text.isWellFormed] in *.
    destruct (Text.is_lead u) eqn:Elead.
    + destruct rest as [|v rest']; [discriminate|].
      apply andb_true_iff in Hwf as [Etrail Hwf]. rewrite Etrail.
      apply is_lead_spec in Elead. apply is_trail_spec in Etrail.
      apply Forall_cons_iff in Hrest as [_ Hrest'].
      destruct (IH rest') as [IH1 IH2]; [simpl in Hlen; lia | assumption..|].
      destruct (pair_code_point u v Elead Etrail) as [Hsc Hcu].
      split; [constructor; assumption|].
      unfold Text.from_code_points in *. cbn [flat_map].
      rewrite Hcu, IH2. reflexivity.
    + apply andb_true_iff in Hwf as [Etrail Hwf].
      apply negb_true_iff in Etrail. rewrite Etrail.
      destruct (IH rest) as [IH1 IH2]; [simpl in Hlen; lia | assumption..|].
      assert (Hsc : Text.scalar u).
      { unfold Text.scalar. unfold Text.is_lead in Elead.
        unfold Text.is_trail in Etrail. lia. }
      split; [constructor; assumption|].
      unfold Text.from_code_points in *. cbn [flat_map].
      rewrite IH2. unfold Text.code_units_of.
      destruct (Z.ltb_spec u 0x10000); [reflexivity | lia].
Qed.

(** A string that does not begin with U+FEFF has scalar values that do not
    either. *)
Lemma to_scalars_head (s : jsstring) :
  hd_error s <> Some Text.BOM ->
  hd_error (Text.to_scalars s) <> Some Text.BOM.
Proof.
  destruct s as [|u rest]; [intros _; discriminate|].
  cbn [hd_error Text.to_scalars]. intros Hu.
  destruct (Text.is_lead u) eqn:Elead.
  - apply is_lead_spec in Elead.
    destruct rest as [|v rest']; [discriminate|].
    destruct (Text.is_trail v) eqn:Etrail; [|discriminate].
    apply is_trail_spec in Etrail. cbn [hd_error].
    rewrite Z.shiftl_mul_pow2 by lia. change (2 ^ 10) with 1024.
    unfold Text.BOM. intros [= E]. lia.
  - destruct (Text.is_trail u); [discriminate|]. exact Hu.
Qed.

(** [TextDecoder] reads back what [TextEncoder] wrote, for a well-formed
    string that does not begin with U+FEFF. *)
Lemma text_roundtrip (s : jsstring) :
  js_string s -> Text.isWellFormed s = true ->
  hd_error s <> Some Text.BOM ->
  uint8ArrayToString (stringToUint8Array s) = s.
Proof.
  intros Hs Hwf Hbom.
  unfold uint8ArrayToString, stringToUint8Array,
    Text.TextDecoder_decode, Text.TextEncoder_encode.
  destruct (to_scalars_well_formed (length s) s) as [Hsc Hback]; auto.
  apply to_scalars_head in Hbom.
  assert (Hstrip : Text.strip_bom (Text.utf8_encode (Text.to_scalars s))
                   = Text.utf8_encode (Text.to_scalars s)).
  { destruct (Text.to_scalars s) as [|c cs]; [reflexivity|].
    rewrite utf8_encode_cons. apply strip_bom_encode_cp.
    - apply Forall_cons_iff in Hsc. tauto.
    - intros ->. apply Hbom. reflexivity. }
  rewrite Hstrip, utf8_decode_encode by exact Hsc. exact Hback.
Qed.

(** ** The random source *)

Lemma draw_length (n : nat) (e : entropy) : length (fst (draw n e)) = n.
Proof. unfold draw. cbn [fst]. rewrite length_map, length_seq. reflexivity. Qed.

Lemma getRandomValues_draw (n : nat) (e : entropy) :
  getRandomValues n e = (Ok (fst (draw n e)), snd (draw n e)).
Proof. reflexivity. Qed.

(** ** Symmetric keys *)

Section SymmetricKeys.
Context {P : Primitives}.

Lemma createRandomSymmetricKey_draw (e : entropy) :
  createRandomSymmetricKey e
  = (Ok (aes_key (fst (draw 32 e))), snd (draw 32 e)).
Proof. reflexivity. Qed.

Lemma exportSymKey_aes_key (keyData : bytes) :
  exportSymKey (aes_key keyData) = Ok (Base64.encode keyData).
Proof. reflexivity. Qed.

(** [importSymKey] accepts a string exactly when it decodes to 16, 24 or 32
    bytes. *)
Lemma importSymKey_length (strKey : jsstring) :
  importSymKey strKey
  = let n := length (base64ToArrayBuffer strKey) in
    if ((n =? 16) || (n =? 24) || (n =? 32))%nat
    then Ok (aes_key (base64ToArrayBuffer strKey))
    else Err DataError.
Proof.
  unfold importSymKey, importKey. cbn [usages_within forallb has_usage
    existsb usage_eqb orb andb negb bind].
  set (n := length (base64ToArrayBuffer strKey)). cbv zeta.
  destruct (Nat.eqb_spec n 16) as [->|H16]; [reflexivity|].
  destruct (Nat.eqb_spec n 24) as [->|H24]; [reflexivity|].
  destruct (Nat.eqb_spec n 32) as [->|H32]; [reflexivity|].
  destruct (Z.eqb_spec (8 * Z.of_nat n) 128); [lia|].
  destruct (Z.eqb_spec (8 * Z.of_nat n) 192); [lia|].
  destruct (Z.eqb_spec (8 * Z.of_nat n) 256); [lia|].
  reflexivity.
Qed.

Lemma importSymKey_exportSymKey (keyData : bytes) :
  In (length keyData) [16; 24; 32]%nat ->
  importSymKey (Base64.encode keyData) = Ok (aes_key keyData).
Proof.
  intros Hlen. rewrite importSymKey_length.
  unfold base64ToArrayBuffer. rewrite decode_encode. cbv zeta.
  destruct Hlen as [<-|[<-|[<-|[]]]]; reflexivity.
Qed.

(** [symEncrypt] under an AES-GCM key that may encrypt. *)
Lemma symEncrypt_aes (keyData : bytes) (ex : bool) (us : list KeyUsage)
    (data : jsstring) (e : entropy) :
  has_usage encrypt us = true ->
  symEncrypt {| material := AesRaw keyData; extractable := ex;
                usages := us |} data e
  = (Ok (Base64.encode
           (fst (draw 12 e)
            ++ gcm_encrypt keyData (fst (draw 12 e))
                 (stringToUint8Array data))),
     snd (draw 12 e)).
Proof.
  intros Hus. unfold symEncrypt, rbind. rewrite getRandomValues_draw.
  unfold subtle_encrypt.
  cbn [params_name algorithm_name material name_eqb negb usages].
  rewrite Hus. reflexivity.
Qed.

(** Whenever [symEncrypt] returns a blob, the key is an AES-GCM key and the
    blob is the encoding of the IV followed by the GCM output. *)
Lemma symEncrypt_Ok (key : CryptoKey) (data blob : jsstring) (e : entropy) :
  fst (symEncrypt key data e) = Ok blob ->
  exists keyData,
    material key = AesRaw keyData
    /\ blob = Base64.encode
                (fst (draw 12 e)
                 ++ gcm_encrypt keyData (fst (draw 12 e))
                      (stringToUint8Array data)).
Proof.
  destruct key as [m ex us]. unfold symEncrypt, rbind.
  rewrite getRandomValues_draw. unfold subtle_encrypt.
  cbn [params_name algorithm_name material name_eqb negb usages].
  destruct m as [k|k|k]; cbn [negb name_eqb lift fst]; try discriminate.
  destruct (has_usage encrypt us); cbn [negb lift fst]; [|discriminate].
  intros [= <-]. exists k. split; reflexivity.
Qed.

Lemma firstn_draw_app (n : nat) (e : entropy) (rest : bytes) :
  firstn n (fst (draw n e) ++ rest) = fst (draw n e).
Proof.
  rewrite firstn_app, draw_length, Nat.sub_diag, firstn_O, app_nil_r.
  apply firstn_all2. rewrite draw_length. lia.
Qed.

Lemma skipn_draw_app (n : nat) (e : entropy) (rest : bytes) :
  skipn n (fst (draw n e) ++ rest) = rest.
Proof.
  rewrite skipn_app, draw_length, Nat.sub_diag, skipn_O.
  rewrite skipn_all2 by (rewrite draw_length; lia). reflexivity.
Qed.

Lemma symDecrypt_with_subtle (strKey encryptedData : jsstring) :
  symDecrypt strKey encryptedData
  = symDecrypt_with subtle_decrypt strKey encryptedData.
Proof. reflexivity. Qed.

(** [symDecrypt] with the exported key undoes [symEncrypt], up to what the
    text encoder and decoder do to the string. *)
Lemma symDecrypt_symEncrypt_text (L : AesGcmLaws P)
    (keyData : bytes) (data : jsstring) (e : entropy) :
  In (length keyData) [16; 24; 32]%nat ->
  exists blob,
    fst (symEncrypt (aes_key keyData) data e) = Ok blob
    /\ symDecrypt (Base64.encode keyData) blob
       = Ok (uint8ArrayToString (stringToUint8Array data)).
Proof.
  intros Hlen. unfold aes_key. rewrite symEncrypt_aes by reflexivity.
  eexists. split; [reflexivity|].
  unfold symDecrypt. rewrite importSymKey_exportSymKey by exact Hlen.
  cbn [bind]. unfold base64ToArrayBuffer. rewrite decode_encode.
  rewrite firstn_draw_app, skipn_draw_app.
  unfold subtle_decrypt, aes_key.
  cbn [params_name algorithm_name material name_eqb negb usages has_usage
       existsb usage_eqb orb].
  rewrite gcm_encrypt_length.
  destruct (Nat.ltb_spec (length (stringToUint8Array data) + 16) 16); [lia|].
  rewrite gcm_decrypt_encrypt; [reflexivity | exact Hlen |].
  intros E. pose proof (draw_length 12 e) as Hd. rewrite E in Hd.
  discriminate.
Qed.

End SymmetricKeys.

(** ** The small instance meets the laws *)

Lemma bytes_eqb_refl (a : bytes) : Toy.bytes_eqb a a = true.
Proof.
  induction a as [|x a IH]; [reflexivity|].
  cbn [Toy.bytes_eqb]. rewrite IH, andb_true_r.
  apply Byte.byte_dec_lb. reflexivity.
Qed.

Lemma toy_aes_gcm_laws : AesGcmLaws Toy.primitives.
Proof.
  split; cbn [gcm_encrypt gcm_decrypt Toy.primitives].
  - intros k iv m. unfold Toy.toy_gcm_encrypt.
    rewrite length_app, repeat_length. reflexivity.
  - intros k iv m _ _. unfold Toy.toy_gcm_encrypt, Toy.toy_gcm_decrypt.
    rewrite length_app, repeat_length.
    replace (length m + 16 - 16)%nat with (length m) by lia.
    rewrite skipn_app, Nat.sub_diag, skipn_O, skipn_all, app_nil_l.
    rewrite bytes_eqb_refl.
    rewrite firstn_app, Nat.sub_diag, firstn_O, app_nil_r, firstn_all.
    reflexivity.
Qed.

Lemma toy_rsa_oaep_laws : RsaOaepLaws Toy.primitives.
Proof.
  split; cbn [spki_parse spki_encode pkcs8_parse pkcs8_encode rsa_generate
              oaep_encrypt oaep_decrypt Toy.primitives rsa_public rsa_private].
  - reflexivity.
  - reflexivity.
  - intros e pub prv e' seed m Hgen Hseed Hm.
    unfold Toy.toy_generate in Hgen. cbn in Hgen.
    injection Hgen as <- <- _.
    unfold Toy.toy_oaep_encrypt, Toy.toy_oaep_decrypt.
    destruct (Nat.leb_spec (length m) 190); [|lia].
    eexists. split; [reflexivity|].
    set (k := [e 0%nat; e 1%nat; e 2%nat; e 3%nat]).
    rewrite firstn_app, Nat.sub_diag, firstn_O, app_nil_r, firstn_all.
    rewrite bytes_eqb_refl.
    rewrite skipn_app.
    rewrite skipn_all2 by (subst k; simpl; lia).
    replace (length k + 32 - length k)%nat with (length seed) by lia.
    rewrite skipn_app, Nat.sub_diag, skipn_O, skipn_all.
    reflexivity.
Qed.

(** ** Symmetric encryption: the blob and the round trip *)

Section SymmetricEncryption.
Context {P : Primitives}.

(** A symmetric key of this module is [aes_key] of 16, 24 or 32 bytes. *)
Lemma symmetric_key_aes (key : CryptoKey) :
  symmetric_key key ->
  exists keyData,
    key = aes_key keyData /\ In (length keyData) [16; 24; 32]%nat.
Proof.
  intros [[e He] | [strKey Hs]].
  - rewrite createRandomSymmetricKey_draw in He. cbn [fst] in He.
    injection He as <-.
    exists (fst (draw 32 e)). split; [reflexivity|].
    rewrite draw_length. simpl. auto.
  - rewrite importSymKey_length in Hs. cbv zeta in Hs.
    destruct (Nat.eqb_spec (length (base64ToArrayBuffer strKey)) 16) as [E|_];
      [|destruct (Nat.eqb_spec (length (base64ToArrayBuffer strKey)) 24)
          as [E|_];
        [|destruct (Nat.eqb_spec (length (base64ToArrayBuffer strKey)) 32)
            as [E|_]]];
      cbn [orb] in Hs; try discriminate;
      injection Hs as <-; eexists; (split; [reflexivity|]);
      rewrite E; simpl; auto.
Qed.

(** X1: the string [exportSymKey] returns for a generated key is imported
    by [importSymKey] as that key. *)
Theorem importSymKey_exportSymKey_generated (e : entropy) :
  let k := aes_key (fst (draw 32 e)) in
  fst (createRandomSymmetricKey e) = Ok k
  /\ exportSymKey k = Ok (arrayBufferToBase64 (fst (draw 32 e)))
  /\ importSymKey (arrayBufferToBase64 (fst (draw 32 e))) = Ok k.
Proof.
  cbv zeta. split; [reflexivity|]. split; [reflexivity|].
  apply importSymKey_exportSymKey. rewrite draw_length. simpl. auto.
Qed.

(** C1, as the code has it: for every key [createRandomSymmetricKey]
    generates and every plaintext that is a well-formed string (no surrogate
    outside a pair) and does not begin with U+FEFF, [symDecrypt] applied to
    the exported key and to the blob [symEncrypt] returns gives the
    plaintext back.  (A lone surrogate comes back as U+FFFD and a leading
    U+FEFF is dropped by [TextDecoder].) *)
Theorem symDecrypt_symEncrypt_roundtrip (L : AesGcmLaws P)
    (e e' : entropy) (k : CryptoKey) (s : jsstring) :
  fst (createRandomSymmetricKey e) = Ok k ->
  js_string s ->
  Text.isWellFormed s = true ->
  hd_error s <> Some Text.BOM ->
  exists strKey blob,
    exportSymKey k = Ok strKey
    /\ fst (symEncrypt k s e') = Ok blob
    /\ symDecrypt strKey blob = Ok s.
Proof.
  intros Hk Hs Hwf Hbom.
  rewrite createRandomSymmetricKey_draw in Hk. injection Hk as <-.
  destruct (symDecrypt_symEncrypt_text L (fst (draw 32 e)) s e')
    as (blob & Henc & Hdec).
  { rewrite draw_length. simpl. auto. }
  exists (Base64.encode (fst (draw 32 e))), blob.
  split; [apply exportSymKey_aes_key|]. split; [exact Henc|].
  rewrite Hdec, text_roundtrip by assumption. reflexivity.
Qed.

(** C2: the blob [symEncrypt] produces is the base64 encoding of the 12-byte
    IV it drew followed by the AES-GCM output, which is as long as the
    encoded plaintext plus the 16-byte tag; the first 12 decoded bytes are
    the IV.  Under every symmetric key of this module a blob is produced. *)
Theorem symEncrypt_blob_layout (L : AesGcmLaws P)
    (key : CryptoKey) (data : jsstring) (e : entropy) :
  let iv := fst (draw 12 e) in
  (symmetric_key key -> exists blob, fst (symEncrypt key data e) = Ok blob)
  /\ forall blob,
       fst (symEncrypt key data e) = Ok blob ->
       exists keyData,
         let output := gcm_encrypt keyData iv (stringToUint8Array data) in
         material key = AesRaw keyData
         /\ blob = arrayBufferToBase64 (iv ++ output)
         /\ base64ToArrayBuffer blob = iv ++ output
         /\ length iv = 12%nat
         /\ length output = (length (stringToUint8Array data) + 16)%nat
         /\ firstn 12 (base64ToArrayBuffer blob) = iv.
Proof.
  intros iv. split.
  - intros Hkey. destruct (symmetric_key_aes key Hkey) as (keyData & -> & _).
    unfold aes_key. rewrite symEncrypt_aes by reflexivity.
    eexists. reflexivity.
  - intros blob Hblob.
    destruct (symEncrypt_Ok key data blob e Hblob) as (keyData & Hm & ->).
    exists keyData. cbv zeta. fold iv.
    unfold base64ToArrayBuffer, arrayBufferToBase64. rewrite decode_encode.
    split; [exact Hm|]. split; [reflexivity|]. split; [reflexivity|].
    split; [apply draw_length|]. split; [apply gcm_encrypt_length|].
    apply firstn_draw_app.
Qed.

(** C8: two [symEncrypt] calls with the same key and plaintext whose IVs
    differ return different blobs, and the first 12 decoded bytes of each
    blob are its IV, so these differ too. *)
Theorem symEncrypt_distinct_ivs (key : CryptoKey) (data : jsstring)
    (e1 e2 : entropy) (blob1 blob2 : jsstring) :
  fst (symEncrypt key data e1) = Ok blob1 ->
  fst (symEncrypt key data e2) = Ok blob2 ->
  fst (draw 12 e1) <> fst (draw 12 e2) ->
  blob1 <> blob2
  /\ firstn 12 (base64ToArrayBuffer blob1) = fst (draw 12 e1)
  /\ firstn 12 (base64ToArrayBuffer blob2) = fst (draw 12 e2)
  /\ firstn 12 (base64ToArrayBuffer blob1)
     <> firstn 12 (base64ToArrayBuffer blob2).
Proof.
  intros H1 H2 Hiv.
  destruct (symEncrypt_Ok key data blob1 e1 H1) as (k1 & _ & ->).
  destruct (symEncrypt_Ok key data blob2 e2 H2) as (k2 & _ & ->).
  unfold base64ToArrayBuffer. rewrite !decode_encode, !firstn_draw_app.
  repeat split; try assumption.
  intros E. apply encode_inj in E.
  apply (f_equal (firstn 12)) in E. rewrite !firstn_draw_app in E.
  contradiction.
Qed.

(** C4, as the code has it: [importSymKey] never rejects a string for not
    being valid base64, since [Buffer.from] decodes leniently and never
    throws; it fails, with [DataError], exactly when the decoded bytes are
    not 16, 24 or 32 in number, and succeeds on 16 and 24 bytes as well as
    on 32. *)
Theorem importSymKey_accepts_three_lengths (strKey : jsstring) :
  let keyData := base64ToArrayBuffer strKey in
  (In (length keyData) [16; 24; 32]%nat
   /\ importSymKey strKey = Ok (aes_key keyData))
  \/ (~ In (length keyData) [16; 24; 32]%nat
      /\ importSymKey strKey = Err DataError).
Proof.
  intros keyData. rewrite importSymKey_length. fold keyData. cbv zeta.
  destruct (Nat.eqb_spec (length keyData) 16) as [E16|N16];
    [left; rewrite E16; simpl; auto|].
  destruct (Nat.eqb_spec (length keyData) 24) as [E24|N24];
    [left; rewrite E24; simpl; auto|].
  destruct (Nat.eqb_spec (length keyData) 32) as [E32|N32];
    [left; rewrite E32; simpl; auto|].
  right. split; [|reflexivity]. simpl. intuition congruence.
Qed.

(** C3, as the code has it: [symDecrypt] has no length check of its own.
    On a blob that decodes to fewer than 12 bytes it slices all of them as
    the IV, leaves no ciphertext, and calls [subtle.decrypt], which rejects
    the empty data as shorter than the 16-byte tag with [OperationError];
    this is what [symDecrypt] fails with when [importSymKey] accepts the key
    string.  When it does not, [symDecrypt] fails with the import's
    [DataError] before it looks at the blob. *)
Theorem symDecrypt_short_blob (strKey encryptedData : jsstring) :
  (length (base64ToArrayBuffer encryptedData) < 12)%nat ->
  symDecrypt strKey encryptedData
  = (let* key := importSymKey strKey in
     let* decryptedData :=
       subtle_decrypt (AesGcmParams (base64ToArrayBuffer encryptedData))
                      key [] in
     Ok (uint8ArrayToString decryptedData))
  /\ (forall key, importSymKey strKey = Ok key ->
        symDecrypt strKey encryptedData = Err OperationError)
  /\ (forall x, importSymKey strKey = Err x ->
        x = DataError /\ symDecrypt strKey encryptedData = Err DataError).
Proof.
  intros Hshort. unfold symDecrypt.
  rewrite firstn_all2 by lia. rewrite skipn_all2 by lia.
  split; [reflexivity|]. split.
  - intros key Hkey. rewrite Hkey. cbn [bind].
    rewrite importSymKey_length in Hkey. cbv zeta in Hkey.
    destruct ((length (base64ToArrayBuffer strKey) =? 16)%nat
              || (length (base64ToArrayBuffer strKey) =? 24)%nat
              || (length (base64ToArrayBuffer strKey) =? 32)%nat);
      [|discriminate].
    injection Hkey as <-. reflexivity.
  - intros x Hx. rewrite Hx. cbn [bind].
    rewrite importSymKey_length in Hx. cbv zeta in Hx.
    destruct ((length (base64ToArrayBuffer strKey) =? 16)%nat
              || (length (base64ToArrayBuffer strKey) =? 24)%nat
              || (length (base64ToArrayBuffer strKey) =? 32)%nat);
      [discriminate|].
    injection Hx as <-. split; reflexivity.
Qed.

End SymmetricEncryption.

(** ** RSA keys *)

Section RsaKeys.
Context {P : Primitives}.

Lemma generateRsaKeyPair_generate (e : entropy) :
  generateRsaKeyPair e
  = (let '(pub, prv, e') := rsa_generate 2048 65537 e in
     (Ok {| publicKey := {| material := RsaPublic pub; extractable := true;
                            usages := [encrypt] |};
            privateKey := {| material := RsaPrivate prv; extractable := true;
                             usages := [decrypt] |} |}, e')).
Proof.
  unfold generateRsaKeyPair, rbind, generateKey_rsa.
  cbn [usages_within forallb has_usage existsb usage_eqb orb andb negb].
  destruct (rsa_generate 2048 65537 e) as [[pub prv] e']. reflexivity.
Qed.

(** What [importPubKey] and [importPrvKey] return. *)
Lemma importPubKey_Ok (strKey : jsstring) (key : CryptoKey) :
  importPubKey strKey = Ok key ->
  exists k,
    key = {| material := RsaPublic k; extractable := true;
             usages := [encrypt] |}.
Proof.
  unfold importPubKey, importKey.
  cbn [usages_within forallb has_usage existsb usage_eqb orb andb negb].
  destruct (spki_parse (base64ToArrayBuffer strKey)) as [k|];
    cbn [bind]; [|discriminate].
  intros [= <-]. exists k. reflexivity.
Qed.

Lemma importPrvKey_Ok (strKey : jsstring) (key : CryptoKey) :
  importPrvKey strKey = Ok key ->
  exists k,
    key = {| material := RsaPrivate k; extractable := true;
             usages := [decrypt] |}.
Proof.
  unfold importPrvKey, importKey.
  cbn [usages_within forallb has_usage existsb usage_eqb orb andb negb].
  destruct (pkcs8_parse (base64ToArrayBuffer strKey)) as [k|];
    cbn [bind]; [|discriminate].
  intros [= <-]. exists k. reflexivity.
Qed.

Lemma importPubKey_exportPubKey (L : RsaOaepLaws P) (k : rsa_public) :
  importPubKey (Base64.encode (spki_encode k))
  = Ok {| material := RsaPublic k; extractable := true;
          usages := [encrypt] |}.
Proof.
  unfold importPubKey, importKey, base64ToArrayBuffer.
  cbn [usages_within forallb has_usage existsb usage_eqb orb andb negb].
  rewrite decode_encode, spki_parse_encode. reflexivity.
Qed.

(** Encrypting for the exported public key of a generated pair and
    decrypting with its private key gives the message bytes, as text. *)
Lemma rsaDecrypt_rsaEncrypt (L : RsaOaepLaws P) (e e1 e' : entropy)
    (pub : rsa_public) (prv : rsa_private) (b64Data : jsstring) :
  rsa_generate 2048 65537 e = (pub, prv, e1) ->
  (length (base64ToArrayBuffer b64Data) <= 190)%nat ->
  exists c,
    fst (rsaEncrypt b64Data (Base64.encode (spki_encode pub)) e') = Ok c
    /\ rsaDecrypt c {| material := RsaPrivate prv; extractable := true;
                       usages := [decrypt] |}
       = Ok (Text.Buffer_toString_utf8 (base64ToArrayBuffer b64Data)).
Proof.
  intros Hgen Hlen.
  destruct (oaep_decrypt_encrypt e pub prv e1 (fst (draw 32 e'))
              (base64ToArrayBuffer b64Data) Hgen (draw_length 32 e') Hlen)
    as (c & Henc & Hdec).
  exists (Base64.encode c). split.
  - unfold rsaEncrypt, rbind, lift.
    rewrite importPubKey_exportPubKey by exact L.
    unfold subtle_encrypt.
    cbn [params_name algorithm_name material name_eqb negb usages has_usage
         existsb usage_eqb orb].
    unfold rbind. rewrite getRandomValues_draw, Henc. reflexivity.
  - unfold rsaDecrypt, subtle_decrypt, base64ToArrayBuffer.
    cbn [params_name algorithm_name material name_eqb negb usages has_usage
         existsb usage_eqb orb].
    rewrite decode_encode, Hdec. reflexivity.
Qed.

(** C5: for every generated RSA key pair, a base64-encoded message of at
    most 190 bytes encrypted for the exported (and, inside [rsaEncrypt],
    imported again) public key and decrypted with the original private key
    comes back as its bytes decoded as UTF-8; for ["aGVsbG8="] that is
    ["hello"]. *)
Theorem rsaDecrypt_rsaEncrypt_roundtrip (L : RsaOaepLaws P)
    (e e' : entropy) :
  exists pair strPubKey,
    fst (generateRsaKeyPair e) = Ok pair
    /\ exportPubKey (publicKey pair) = Ok strPubKey
    /\ (forall b64Data,
          (length (base64ToArrayBuffer b64Data) <= 190)%nat ->
          exists c,
            fst (rsaEncrypt b64Data strPubKey e') = Ok c
            /\ rsaDecrypt c (privateKey pair)
               = Ok (Text.Buffer_toString_utf8
                       (base64ToArrayBuffer b64Data)))
    /\ (exists c,
          fst (rsaEncrypt (js "aGVsbG8=") strPubKey e') = Ok c
          /\ rsaDecrypt c (privateKey pair) = Ok (js "hello")).
Proof.
  rewrite generateRsaKeyPair_generate.
  destruct (rsa_generate 2048 65537 e) as [[pub prv] e1] eqn:Hgen.
  eexists. exists (Base64.encode (spki_encode pub)).
  split; [reflexivity|]. split; [reflexivity|].
  cbn [privateKey]. split.
  - intros b64Data Hlen. exact (rsaDecrypt_rsaEncrypt L e e1 e' _ _ _ Hgen Hlen).
  - destruct (rsaDecrypt_rsaEncrypt L e e1 e' pub prv (js "aGVsbG8=") Hgen)
      as (c & Henc & Hdec); [vm_compute; lia|].
    exists c. split; [exact Henc|]. rewrite Hdec. reflexivity.
Qed.

(** C6: a key [importPubKey] returns is a public key whose only usage is
    encrypt: [decrypt] rejects it whatever the algorithm and data, and
    [encrypt] does not reject it for its usages.  A key [importPrvKey]
    returns is a private key whose only usage is decrypt: [encrypt] rejects
    it, and [decrypt] does not reject it for its usages. *)
Theorem imported_keys_single_usage (strKey : jsstring) :
  (forall key,
     importPubKey strKey = Ok key ->
     type key = public
     /\ usages key = [encrypt]
     /\ (forall algorithm data,
           subtle_decrypt algorithm key data = Err InvalidAccessError)
     /\ (forall data e,
           fst (subtle_encrypt RsaOaepParams key data e)
           <> Err InvalidAccessError))
  /\ (forall key,
        importPrvKey strKey = Ok key ->
        type key = private
        /\ usages key = [decrypt]
        /\ (forall algorithm data e,
              fst (subtle_encrypt algorithm key data e)
              = Err InvalidAccessError)
        /\ (forall data,
              subtle_decrypt RsaOaepParams key data
              <> Err InvalidAccessError)).
Proof.
  split; intros key Hkey.
  - destruct (importPubKey_Ok strKey key Hkey) as (k & ->).
    split; [reflexivity|]. split; [reflexivity|]. split.
    + intros [|iv] data; reflexivity.
    + intros data e. unfold subtle_encrypt.
      cbn [params_name algorithm_name material name_eqb negb usages
           has_usage existsb usage_eqb orb].
      unfold rbind. rewrite getRandomValues_draw.
      destruct (oaep_encrypt k (fst (draw 32 e)) data); discriminate.
  - destruct (importPrvKey_Ok strKey key Hkey) as (k & ->).
    split; [reflexivity|]. split; [reflexivity|]. split.
    + intros [|iv] data e; reflexivity.
    + intros data. unfold subtle_decrypt.
      cbn [params_name algorithm_name material name_eqb negb usages
           has_usage existsb usage_eqb orb].
      destruct (oaep_decrypt k data); discriminate.
Qed.

(** C9, as the code has it: [exportPrvKey] of [null] is [null], with no
    error; of a private key it is the base64 encoding of the key's PKCS8
    serialization when the key is extractable, as every private key this
    module generates or imports is, and [exportKey]'s rejection when it is
    not. *)
Theorem exportPrvKey_null_or_pkcs8 :
  exportPrvKey None = Ok None
  /\ forall (k : rsa_private) (ex : bool) (us : list KeyUsage),
       exportPrvKey (Some {| material := RsaPrivate k; extractable := ex;
                             usages := us |})
       = if ex
         then Ok (Some (arrayBufferToBase64 (pkcs8_encode k)))
         else Err InvalidAccessError.
Proof.
  split; [reflexivity|]. intros k [|] us; reflexivity.
Qed.

End RsaKeys.

(** ** The registry *)

Module RegistryFacts.
Import Registry.

Lemma find_None_ids (id : Z) (l : list Node) :
  find (fun node => nodeId node =? id) l = None <-> ~ In id (map nodeId l).
Proof.
  induction l as [|n l IH]; cbn [find map In]; [tauto|].
  destruct (Z.eqb_spec (nodeId n) id) as [E|N].
  - split; [discriminate | intros H; exfalso; apply H; auto].
  - rewrite IH. tauto.
Qed.

Lemma serve_cons (s : store) (r : request) (rs : list request) :
  fst (serve s (r :: rs)) = fst (serve (fst (handle s r)) rs).
Proof.
  cbn [serve]. destruct (handle s r) as [s' resp]. cbn [fst].
  destruct (serve s' rs). reflexivity.
Qed.

(** No handler writes [nodeKeys]. *)
Lemma handle_nodeKeys (s : store) (r : request) :
  nodeKeys (fst (handle s r)) = nodeKeys s.
Proof.
  destruct r as [|b|n|]; cbn [handle]; try reflexivity.
  - unfold registerNode.
    destruct (find _ (nodes s)); reflexivity.
  - unfold getPrivateKey. destruct (nodeKeys s !! n); reflexivity.
Qed.

Lemma serve_nodeKeys (rs : list request) :
  forall s, nodeKeys (fst (serve s rs)) = nodeKeys s.
Proof.
  induction rs as [|r rs IH]; intros s; [reflexivity|].
  rewrite serve_cons, IH. apply handle_nodeKeys.
Qed.

Lemma registrations_cons (r : request) (rs : list request) :
  registrations (r :: rs) = registrations [r] ++ registrations rs.
Proof.
  unfold registrations. cbn [flat_map]. rewrite app_nil_r. reflexivity.
Qed.

(** The registered ids are those of the registration requests served. *)
Lemma handle_ids (s : store) (r : request) (id : Z) :
  In id (map nodeId (nodes (fst (handle s r))))
  <-> In id (map nodeId (nodes s)) \/ In id (registrations [r]).
Proof.
  destruct r as [|b|n|]; cbn [handle registrations flat_map app In];
    try (cbn [getStatus getNodeRegistry fst]; tauto).
  - unfold registerNode.
    destruct (find _ (nodes s)) as [n|] eqn:Ef; cbn [fst nodes].
    + split; [tauto|]. intros [H|[<-|[]]]; [exact H|].
      destruct (in_dec Z.eq_dec (body_nodeId b) (map nodeId (nodes s)))
        as [Hin|Hout]; [exact Hin|].
      apply find_None_ids in Hout. congruence.
    + rewrite map_app, in_app_iff. cbn [map In nodeId]. tauto.
  - unfold getPrivateKey. destruct (nodeKeys s !! n); cbn [fst]; tauto.
Qed.

Lemma serve_ids (rs : list request) (id : Z) :
  forall s,
    In id (map nodeId (nodes (fst (serve s rs))))
    <-> In id (map nodeId (nodes s)) \/ In id (registrations rs).
Proof.
  induction rs as [|r rs IH]; intros s.
  - cbn [serve fst registrations flat_map In]. tauto.
  - rewrite serve_cons, IH, handle_ids, (registrations_cons r rs).
    rewrite in_app_iff. tauto.
Qed.

(** Once an id is registered, no request changes the nodes that carry
    it. *)
Lemma handle_keeps (s : store) (r : request) (id : Z) :
  In id (map nodeId (nodes s)) ->
  List.filter (has_id id) (nodes (fst (handle s r))) = List.filter (has_id id) (nodes s).
Proof.
  intros Hin.
  destruct r as [|b|n|]; cbn [handle]; try reflexivity.
  - unfold registerNode.
    destruct (find _ (nodes s)) as [n|] eqn:Ef; cbn [fst nodes];
      [reflexivity|].
    apply find_None_ids in Ef.
    rewrite List.filter_app. cbn [List.filter has_id nodeId]. unfold has_id at 2.
    cbn [nodeId].
    destruct (Z.eqb_spec (body_nodeId b) id) as [E|N];
      [congruence | apply app_nil_r].
  - unfold getPrivateKey. destruct (nodeKeys s !! n); reflexivity.
Qed.

Lemma serve_keeps (rs : list request) (id : Z) :
  forall s,
    In id (map nodeId (nodes s)) ->
    List.filter (has_id id) (nodes (fst (serve s rs)))
    = List.filter (has_id id) (nodes s).
Proof.
  induction rs as [|r rs IH]; intros s Hin; [reflexivity|].
  rewrite serve_cons, IH.
  - apply handle_keeps. exact Hin.
  - apply handle_ids. auto.
Qed.

Lemma filter_absent (id : Z) (l : list Node) :
  ~ In id (map nodeId l) -> List.filter (has_id id) l = [].
Proof.
  induction l as [|n l IH]; cbn [map In List.filter]; [reflexivity|].
  intros H. unfold has_id at 1.
  destruct (Z.eqb_spec (nodeId n) id); [tauto|]. apply IH. tauto.
Qed.

Lemma NoDup_snoc (x : Z) (l : list Z) :
  ~ In x l -> List.NoDup l -> List.NoDup (l ++ [x]).
Proof.
  intros Hx Hl. induction Hl as [|y l Hy Hl IH]; cbn [app].
  - constructor; [intros [] | constructor].
  - constructor.
    + rewrite in_app_iff. cbn [In]. intros [H|[H|[]]]; [contradiction|].
      apply Hx. left. congruence.
    + apply IH. intros H. apply Hx. right. exact H.
Qed.

(** X2: after any sequence of requests no two nodes of the registry have
    the same [nodeId], and a registration that is accepted adds its node at
    the end of the listing. *)
Theorem nodeId_unique (rs : list request) (b : RegisterNodeBody) :
  let s := fst (serve empty_store rs) in
  List.NoDup (map nodeId (nodes s))
  /\ (status (snd (registerNode b s)) = 201
      /\ nodes (fst (registerNode b s))
         = nodes s ++ [{| nodeId := body_nodeId b; pubKey := body_pubKey b |}]
      \/ status (snd (registerNode b s)) = 400
         /\ fst (registerNode b s) = s).
Proof.
  intros s. split.
  - unfold s. clear s.
    assert (H : forall s0,
               List.NoDup (map nodeId (nodes s0)) ->
               List.NoDup (map nodeId (nodes (fst (serve s0 rs))))).
    { induction rs as [|r rs IH]; intros s0 Hs0; [exact Hs0|].
      rewrite serve_cons. apply IH.
      destruct r as [|b0|n|]; cbn [handle]; try exact Hs0.
      - unfold registerNode.
        destruct (find _ (nodes s0)) as [n|] eqn:Ef; cbn [fst nodes];
          [exact Hs0|].
        apply find_None_ids in Ef.
        rewrite map_app. cbn [map nodeId].
        apply NoDup_snoc; assumption.
      - unfold getPrivateKey. destruct (nodeKeys s0 !! n); exact Hs0. }
    apply H. cbn [empty_store nodes map]. constructor.
  - unfold registerNode.
    destruct (find _ (nodes s)); cbn [fst snd status nodes]; auto.
Qed.

(** C7: whatever requests came before, the first registration of a
    [nodeId] is answered 201; after it, and after any further requests, a
    registration with the same [nodeId] and any [pubKey] is answered 400
    and leaves the store as it was, and the listing holds exactly one node
    with that [nodeId], carrying the [pubKey] registered first. *)
Theorem registerNode_first_wins (before after : list request) (id : Z)
    (pk pk' : jsstring) :
  ~ In id (registrations before) ->
  let first := {| body_nodeId := id; body_pubKey := pk |} in
  let again := {| body_nodeId := id; body_pubKey := pk' |} in
  let s0 := fst (serve empty_store before) in
  let s1 := fst (handle s0 (POST_registerNode first)) in
  let s2 := fst (serve s1 after) in
  snd (handle s0 (POST_registerNode first))
  = {| status := 201; payload := send "Node registered successfully." |}
  /\ handle s2 (POST_registerNode again)
     = (s2, {| status := 400; payload := send "Node already registered." |})
  /\ handle s2 GET_getNodeRegistry
     = (s2, {| status := 200; payload := json_nodes (nodes s2) |})
  /\ List.filter (has_id id) (nodes s2) = [{| nodeId := id; pubKey := pk |}].
Proof.
  intros Hfirst first again s0 s1 s2.
  assert (Hout : ~ In id (map nodeId (nodes s0))).
  { unfold s0. rewrite serve_ids. cbn [empty_store nodes map In]. tauto. }
  assert (Hfind : find (fun node => nodeId node =? id) (nodes s0) = None).
  { apply find_None_ids. exact Hout. }
  assert (Hs1 : nodes s1 = nodes s0 ++ [{| nodeId := id; pubKey := pk |}]).
  { unfold s1. cbn [handle]. unfold registerNode. cbn [body_nodeId first].
    rewrite Hfind. reflexivity. }
  assert (Hin1 : In id (map nodeId (nodes s1))).
  { rewrite Hs1, map_app, in_app_iff. cbn [map In nodeId]. auto. }
  assert (Hin2 : In id (map nodeId (nodes s2))).
  { unfold s2. apply serve_ids. auto. }
  split; [|split; [|split]].
  - cbn [handle]. unfold registerNode. cbn [body_nodeId first].
    rewrite Hfind. reflexivity.
  - cbn [handle]. unfold registerNode. cbn [body_nodeId again].
    destruct (find _ (nodes s2)) as [n|] eqn:Ef; [reflexivity|].
    apply find_None_ids in Ef. contradiction.
  - reflexivity.
  - unfold s2. rewrite serve_keeps by exact Hin1.
    rewrite Hs1, List.filter_app, filter_absent by exact Hout.
    cbn [List.filter app]. unfold has_id. cbn [nodeId].
    rewrite Z.eqb_refl. reflexivity.
Qed.

(** C10: no request writes [nodeKeys], so after any sequence of requests it
    is still empty, and [/getPrivateKey] answers 404 for every [nodeId]; the
    branch that would send a private key is never taken. *)
Theorem getPrivateKey_always_not_found (rs : list request) (n : number) :
  let s := fst (serve empty_store rs) in
  nodeKeys s = ∅
  /\ handle s (GET_getPrivateKey n)
     = (s, {| status := 404;
              payload := send "Node not found or key not generated." |}).
Proof.
  intros s.
  assert (Hempty : nodeKeys s = ∅).
  { unfold s. rewrite serve_nodeKeys. reflexivity. }
  split; [exact Hempty|].
  cbn [handle]. unfold getPrivateKey.
  rewrite Hempty, lookup_empty. reflexivity.
Qed.

End RegistryFacts.

(** ** Concrete runs

    The functions run on the small instance of the primitives, with the
    random source that counts. *)

Section Runs.
#[local] Existing Instance Toy.primitives.

Lemma js_string_js (s : string) : js_string (js s).
Proof.
  unfold js_string, js. apply Forall_map, Forall_forall. intros a _.
  unfold code_unit. pose proof (N_ascii_bounded a). lia.
Qed.

Example decode_hello :
  base64ToArrayBuffer (js "aGVsbG8=") = [x68; x65; x6c; x6c; x6f].
Proof. reflexivity. Qed.

Example encode_hello :
  arrayBufferToBase64 [x68; x65; x6c; x6c; x6f] = js "aGVsbG8=".
Proof. reflexivity. Qed.

(** White space is skipped and the URL-safe characters are accepted. *)
Example decode_lenient :
  base64ToArrayBuffer (js "aGVs bG8=") = base64ToArrayBuffer (js "aGVsbG8=")
  /\ base64ToArrayBuffer (js "-_8=") = base64ToArrayBuffer (js "+/8=").
Proof. split; reflexivity. Qed.

(** U+00E9, U+20AC and U+1F600 (a surrogate pair) in UTF-8, and back. *)
Example utf8_sample :
  stringToUint8Array [0xE9; 0x20AC; 0xD83D; 0xDE00]
  = [xc3; xa9; xe2; x82; xac; xf0; x9f; x98; x80]
  /\ uint8ArrayToString [xc3; xa9; xe2; x82; xac; xf0; x9f; x98; x80]
     = [0xE9; 0x20AC; 0xD83D; 0xDE00].
Proof. split; reflexivity. Qed.

(** An overlong or truncated sequence decodes to U+FFFD. *)
Example utf8_malformed :
  uint8ArrayToString [xc0; x80] = [0xFFFD; 0xFFFD]
  /\ uint8ArrayToString [xe2; x82] = [0xFFFD]
  /\ uint8ArrayToString [xe2; x41] = [0xFFFD; 0x41].
Proof. repeat split. Qed.

(** What the text encoder and decoder do to a leading U+FEFF and to a lone
    surrogate. *)
Example leading_bom_is_dropped :
  uint8ArrayToString (stringToUint8Array (0xFEFF :: js "hi")) = js "hi".
Proof. reflexivity. Qed.

Example lone_surrogate_is_replaced :
  uint8ArrayToString (stringToUint8Array [0xD800]) = [0xFFFD].
Proof. reflexivity. Qed.

Lemma symDecrypt_symEncrypt_roundtrip_witness :
  fst (createRandomSymmetricKey Toy.counting) = Ok Toy.run_key
  /\ exists strKey blob,
       exportSymKey Toy.run_key = Ok strKey
       /\ fst (symEncrypt Toy.run_key (js "secret") Toy.run_rest) = Ok blob
       /\ symDecrypt strKey blob = Ok (js "secret").
Proof.
  split; [reflexivity|].
  apply (symDecrypt_symEncrypt_roundtrip toy_aes_gcm_laws Toy.counting
           Toy.run_rest Toy.run_key (js "secret")).
  - reflexivity.
  - apply js_string_js.
  - reflexivity.
  - discriminate.
Defined.

(** C1 fails as stated: with no primitives that meet the laws, no generated
    key and no random source does a plaintext that begins with U+FEFF, or
    one that holds a lone surrogate, come back from [symDecrypt]. *)
Lemma symDecrypt_symEncrypt_not_every_string :
  let roundtrips (s : jsstring) :=
    exists (P : Primitives) (_ : AesGcmLaws P) (e e' : entropy)
           (k : CryptoKey) (strKey blob : jsstring),
      fst (createRandomSymmetricKey e) = Ok k
      /\ exportSymKey k = Ok strKey
      /\ fst (symEncrypt k s e') = Ok blob
      /\ symDecrypt strKey blob = Ok s in
  js_string (0xFEFF :: js "hi") /\ ~ roundtrips (0xFEFF :: js "hi")
  /\ js_string [0xD800] /\ ~ roundtrips [0xD800].
Proof.
  assert (Hno : forall s,
             uint8ArrayToString (stringToUint8Array s) <> s ->
             ~ exists (P : Primitives) (_ : AesGcmLaws P) (e e' : entropy)
                      (k : CryptoKey) (strKey blob : jsstring),
                 fst (createRandomSymmetricKey e) = Ok k
                 /\ exportSymKey k = Ok strKey
                 /\ fst (symEncrypt k s e') = Ok blob
                 /\ symDecrypt strKey blob = Ok s).
  { intros s Hs (P & L & e & e' & k & strKey & blob & Hk & Hx & Henc & Hdec).
    rewrite createRandomSymmetricKey_draw in Hk.
    change (Ok (aes_key (fst (draw 32 e))) = Ok k) in Hk.
    assert (Ek : k = aes_key (fst (draw 32 e))) by congruence.
    rewrite Ek in Hx, Henc. clear Hk Ek.
    rewrite exportSymKey_aes_key in Hx.
    assert (Es : strKey = Base64.encode (fst (draw 32 e))) by congruence.
    rewrite Es in Hdec. clear Hx Es.
    destruct (symDecrypt_symEncrypt_text L (fst (draw 32 e)) s e')
      as (blob' & Henc' & Hdec').
    { rewrite draw_length. simpl. auto. }
    assert (Eb : blob' = blob) by congruence.
    rewrite Eb in Hdec'. apply Hs. congruence. }
  cbv zeta. split; [|split; [|split]].
  - constructor; [unfold code_unit; lia | apply js_string_js].
  - apply Hno. discriminate.
  - constructor; [unfold code_unit; lia | constructor].
  - apply Hno. discriminate.
Qed.

Lemma symEncrypt_blob_layout_witness :
  exists blob,
    fst (symEncrypt Toy.run_key (js "secret") Toy.run_rest) = Ok blob
    /\ firstn 12 (base64ToArrayBuffer blob) = fst (draw 12 Toy.run_rest)
    /\ length (base64ToArrayBuffer blob) = (12 + (6 + 16))%nat.
Proof.
  destruct (symEncrypt_blob_layout toy_aes_gcm_laws Toy.run_key (js "secret")
              Toy.run_rest) as [Hsome Hlayout].
  destruct Hsome as (blob & Hblob).
  { left. exists Toy.counting. reflexivity. }
  exists blob. split; [exact Hblob|].
  destruct (Hlayout blob Hblob) as (keyData & _ & _ & Hdec & Hiv & Hout & H12).
  split; [exact H12|].
  rewrite Hdec, length_app, Hiv, Hout. reflexivity.
Defined.

Lemma symDecrypt_short_blob_witness :
  (length (base64ToArrayBuffer (js "AAAA")) < 12)%nat
  /\ symDecrypt (Base64.encode (fst (draw 32 Toy.counting))) (js "AAAA")
     = Err OperationError
  /\ symDecrypt (js "AAAA") (js "AAAA") = Err DataError.
Proof.
  split; [vm_compute; lia|].
  split.
  - refine (proj1 (proj2 (symDecrypt_short_blob
                            (Base64.encode (fst (draw 32 Toy.counting)))
                            (js "AAAA") _)) Toy.run_key _);
      [vm_compute; lia | reflexivity].
  - refine (proj2 (proj2 (proj2 (symDecrypt_short_blob (js "AAAA") (js "AAAA")
                                   _)) DataError _));
      [vm_compute; lia | reflexivity].
Defined.

(** C3 fails as stated: for a key string [importSymKey] rejects (here the
    empty string, and a blob of no bytes), [symDecrypt] fails with the
    import's [DataError], whatever the primitives, and not with the
    [OperationError] of a failed decryption.  And nothing in [symDecrypt]
    rejects a short blob before [decrypt] is called: with a [decrypt] that
    accepts every call, the three bytes of ["AAAA"] reach it as the IV. *)
Lemma symDecrypt_short_blob_bad_key :
  (length (base64ToArrayBuffer (js "")) < 12)%nat
  /\ symDecrypt (js "") (js "") = Err DataError
  /\ (~ exists P : Primitives,
          symDecrypt (P := P) (js "") (js "") = Err OperationError)
  /\ symDecrypt_with return_iv
       (Base64.encode (fst (draw 32 Toy.counting))) (js "AAAA")
     = Ok [0; 0; 0].
Proof.
  split; [vm_compute; lia|]. split; [reflexivity|]. split.
  - intros (P & H). discriminate H.
  - reflexivity.
Qed.

(** C4 fails as stated: the encoding of 16 bytes, and an encoding of 32
    bytes with a space in it, which is not valid base64, are both
    imported. *)
Lemma importSymKey_accepts_16_bytes :
  length (base64ToArrayBuffer (js "AAAAAAAAAAAAAAAAAAAAAA==")) = 16%nat
  /\ importSymKey (js "AAAAAAAAAAAAAAAAAAAAAA==")
     = Ok (aes_key (repeat x00 16))
  /\ importSymKey (js "AAAAAAAAAAAAAAAAAAAAAA AAAAAAAAAAAAAAAAAAAAA=")
     = Ok (aes_key (repeat x00 32))
  /\ ~ exists (P : Primitives) (x : DOMException),
         importSymKey (P := P) (js "AAAAAAAAAAAAAAAAAAAAAA==") = Err x.
Proof.
  split; [reflexivity|]. split; [reflexivity|]. split; [reflexivity|].
  intros (P & x & H). discriminate H.
Qed.

Lemma rsaDecrypt_rsaEncrypt_roundtrip_witness :
  exists pair strPubKey c,
    fst (generateRsaKeyPair Toy.counting) = Ok pair
    /\ exportPubKey (publicKey pair) = Ok strPubKey
    /\ fst (rsaEncrypt (js "aGVsbG8=") strPubKey Toy.run_rest) = Ok c
    /\ rsaDecrypt c (privateKey pair) = Ok (js "hello").
Proof.
  destruct (rsaDecrypt_rsaEncrypt_roundtrip toy_rsa_oaep_laws Toy.counting
              Toy.run_rest) as (pair & strPubKey & Hgen & Hexp & _ & c & Henc & Hdec).
  exists pair, strPubKey, c. auto.
Defined.

Lemma imported_keys_single_usage_witness :
  exists pub prv,
    importPubKey (js "AAECAw==") = Ok pub
    /\ importPrvKey (js "AAECAw==") = Ok prv
    /\ subtle_decrypt RsaOaepParams pub [] = Err InvalidAccessError
    /\ fst (subtle_encrypt RsaOaepParams prv [] Toy.counting)
       = Err InvalidAccessError.
Proof.
  destruct (imported_keys_single_usage (js "AAECAw==")) as [Hpub Hprv].
  eexists. eexists.
  split; [reflexivity|]. split; [reflexivity|]. split.
  - apply (Hpub _ eq_refl).
  - apply (Hprv _ eq_refl).
Defined.

Lemma symEncrypt_distinct_ivs_witness :
  let first := symEncrypt Toy.run_key (js "secret") Toy.run_rest in
  let second := symEncrypt Toy.run_key (js "secret") (snd first) in
  fst (draw 12 Toy.run_rest) <> fst (draw 12 (snd first))
  /\ exists blob1 blob2,
       fst first = Ok blob1 /\ fst second = Ok blob2 /\ blob1 <> blob2.
Proof.
  cbv zeta.
  assert (Hiv : fst (draw 12 Toy.run_rest)
                <> fst (draw 12 (snd (symEncrypt Toy.run_key (js "secret")
                                        Toy.run_rest)))).
  { vm_compute. discriminate. }
  split; [exact Hiv|].
  eexists. eexists. split; [reflexivity|]. split; [reflexivity|].
  exact (proj1 (symEncrypt_distinct_ivs Toy.run_key (js "secret") Toy.run_rest _ _ _
                  eq_refl eq_refl Hiv)).
Defined.

(** C9 fails as stated: a private key that is not extractable is not
    exported, whatever the primitives. *)
Lemma exportPrvKey_not_extractable :
  let key := {| material := RsaPrivate (P := Toy.primitives) [x01];
                extractable := false; usages := [decrypt] |} in
  type key = private
  /\ exportPrvKey (Some key) = Err InvalidAccessError
  /\ ~ exists (P : Primitives) (k : rsa_private) (us : list KeyUsage)
              (r : option jsstring),
         exportPrvKey (Some {| material := RsaPrivate k;
                               extractable := false; usages := us |})
         = Ok r.
Proof.
  cbv zeta. split; [reflexivity|]. split; [reflexivity|].
  intros (P & k & us & r & H). discriminate H.
Qed.

Lemma registerNode_first_wins_witness :
  let other := {| Registry.body_nodeId := 1; Registry.body_pubKey := js "a" |} in
  let first := {| Registry.body_nodeId := 5; Registry.body_pubKey := js "K1" |} in
  let again := {| Registry.body_nodeId := 5; Registry.body_pubKey := js "K2" |} in
  ~ In 5 (Registry.registrations [Registry.POST_registerNode other])
  /\ map Registry.status
       (snd (Registry.serve Registry.empty_store
               [Registry.POST_registerNode other;
                Registry.POST_registerNode first;
                Registry.GET_status;
                Registry.POST_registerNode again]))
     = [201; 201; 200; 400]
  /\ List.filter (Registry.has_id 5)
       (Registry.nodes
          (fst (Registry.serve Registry.empty_store
                  [Registry.POST_registerNode other;
                   Registry.POST_registerNode first;
                   Registry.GET_status;
                   Registry.POST_registerNode again])))
     = [{| Registry.nodeId := 5; Registry.pubKey := js "K1" |}].
Proof.
  cbv zeta.
  assert (H : ~ In 5 (Registry.registrations
                        [Registry.POST_registerNode
                           {| Registry.body_nodeId := 1;
                              Registry.body_pubKey := js "a" |}])).
  { simpl. intros [E|[]]. discriminate E. }
  split; [exact H|]. split; [reflexivity|].
  exact (proj2 (proj2 (proj2
           (RegistryFacts.registerNode_first_wins
              [Registry.POST_registerNode
                 {| Registry.body_nodeId := 1;
                    Registry.body_pubKey := js "a" |}]
              [Registry.GET_status;
               Registry.POST_registerNode
                 {| Registry.body_nodeId := 5;
                    Registry.body_pubKey := js "K2" |}]
              5 (js "K1") (js "K2") H)))).
Defined.

End Runs.
(** ** What the decoder emits *)

Lemma scalar_replacement : Text.scalar Text.REPLACEMENT.
Proof. unfold Text.scalar, Text.REPLACEMENT. lia. Qed.

Lemma pending_initial : pending Text.initial.
Proof. left. reflexivity. Qed.

(** A byte read with no sequence pending emits scalar values only and
    leaves the decoder in a state as described. *)
Lemma start_pending (b : Z) :
  0 <= b < 256 ->
  Forall Text.scalar (fst (Text.start b)) /\ pending (snd (Text.start b)).
Proof.
  intros Hb. unfold Text.start.
  destruct (Z.leb_spec b 0x7F).
  { cbn [fst snd]. split; [|apply pending_initial].
    constructor; [unfold Text.scalar; lia | constructor]. }
  destruct (Z.leb_spec 0xC2 b); [destruct (Z.leb_spec b 0xDF)|]; cbn [andb].
  { cbn [fst snd]. split; [constructor|]. right. left.
    cbn [Text.bytes_needed Text.bytes_seen Text.code_point
         Text.lower_boundary Text.upper_boundary].
    rewrite land_31. repeat split; euclid. }
  all: destruct (Z.leb_spec 0xE0 b); [destruct (Z.leb_spec b 0xEF)|];
    cbn [andb].
  all: try (cbn [fst snd]; split; [constructor|]; right; right; left;
            cbn [Text.bytes_needed Text.bytes_seen Text.code_point
                 Text.lower_boundary Text.upper_boundary];
            rewrite land_15;
            split; [reflexivity|]; split; [reflexivity|];
            split; [euclid|];
            destruct (Z.eqb_spec b 0xE0); destruct (Z.eqb_spec b 0xED);
            destruct (Z.eqb_spec (b mod 16) 0);
            destruct (Z.eqb_spec (b mod 16) 13);
            split; first [reflexivity | exfalso; euclid]).
  all: destruct (Z.leb_spec 0xF0 b); [destruct (Z.leb_spec b 0xF4)|];
    cbn [andb].
  all: try (cbn [fst snd]; split; [constructor|]; right; right; right; right;
            left;
            cbn [Text.bytes_needed Text.bytes_seen Text.code_point
                 Text.lower_boundary Text.upper_boundary];
            rewrite land_7;
            split; [reflexivity|]; split; [reflexivity|];
            split; [euclid|];
            destruct (Z.eqb_spec b 0xF0); destruct (Z.eqb_spec b 0xF4);
            destruct (Z.eqb_spec (b mod 8) 0);
            destruct (Z.eqb_spec (b mod 8) 4);
            split; first [reflexivity | exfalso; euclid]).
  all: cbn [fst snd]; (split; [|apply pending_initial]);
    constructor; [apply scalar_replacement | constructor].
Qed.

Lemma step_pending (d : Text.decoder) (b : Z) :
  pending d -> 0 <= b < 256 ->
  Forall Text.scalar (fst (Text.step d b)) /\ pending (snd (Text.step d b)).
Proof.
  intros Hd Hb.
  pose proof (start_pending b Hb) as [Hs1 Hs2].
  destruct d as [cp seen needed lo hi]. unfold pending in Hd.
  cbn [Text.bytes_needed Text.bytes_seen Text.code_point
       Text.lower_boundary Text.upper_boundary] in Hd.
  unfold Text.step.
  cbn [Text.bytes_needed Text.bytes_seen Text.code_point
       Text.lower_boundary Text.upper_boundary].
  destruct (Z.eqb_spec needed 0) as [E0|N0]; [split; assumption|].
  destruct ((lo <=? b) && (b <=? hi)) eqn:Erange; cbn [negb].
  2:{ destruct (Text.start b) as [out d']. cbn [fst snd] in *.
      split; [constructor; [apply scalar_replacement | exact Hs1] | exact Hs2]. }
  apply andb_true_iff in Erange as [Hlo Hhi].
  apply Z.leb_le in Hlo, Hhi.
  assert (Hacc : forall lo' hi', lo' <= b <= hi' -> 128 <= lo' -> hi' <= 191 ->
                 Z.lor (Z.shiftl cp 6) (Z.land b 0x3F) = cp * 64 + (b - 128)).
  { intros. apply accumulate. lia. }
  destruct Hd as [H|[H|[H|[H|[H|[H|H]]]]]]; [lia|..].
  - destruct H as (-> & -> & Hcp & -> & ->).
    rewrite (Hacc 128 191) by lia. change (0 + 1 =? 1) with true. cbn [fst snd].
    split; [|apply pending_initial].
    constructor; [unfold Text.scalar; lia | constructor].
  - destruct H as (-> & -> & Hcp & -> & ->).
    assert (Hb' : 128 <= b <= 191)
      by (destruct (Z.eqb_spec cp 0); destruct (Z.eqb_spec cp 13); lia).
    rewrite (Hacc 128 191) by lia. change (0 + 1 =? 2) with false. cbn [fst snd].
    split; [constructor|]. right. right. right. left.
    cbn [Text.bytes_needed Text.bytes_seen Text.code_point
         Text.lower_boundary Text.upper_boundary].
    destruct (Z.eqb_spec cp 0); destruct (Z.eqb_spec cp 13);
      repeat split; lia.
  - destruct H as (-> & -> & Hcp & Hsur & -> & ->).
    rewrite (Hacc 128 191) by lia. change (1 + 1 =? 2) with true. cbn [fst snd].
    split; [|apply pending_initial].
    constructor; [unfold Text.scalar; lia | constructor].
  - destruct H as (-> & -> & Hcp & -> & ->).
    assert (Hb' : 128 <= b <= 191)
      by (destruct (Z.eqb_spec cp 0); destruct (Z.eqb_spec cp 4); lia).
    rewrite (Hacc 128 191) by lia. change (0 + 1 =? 3) with false. cbn [fst snd].
    split; [constructor|]. right. right. right. right. right. left.
    cbn [Text.bytes_needed Text.bytes_seen Text.code_point
         Text.lower_boundary Text.upper_boundary].
    destruct (Z.eqb_spec cp 0); destruct (Z.eqb_spec cp 4);
      repeat split; lia.
  - destruct H as (-> & -> & Hcp & -> & ->).
    rewrite (Hacc 128 191) by lia. change (1 + 1 =? 3) with false. cbn [fst snd].
    split; [constructor|]. right. right. right. right. right. right.
    cbn [Text.bytes_needed Text.bytes_seen Text.code_point
         Text.lower_boundary Text.upper_boundary].
    repeat split; lia.
  - destruct H as (-> & -> & Hcp & -> & ->).
    rewrite (Hacc 128 191) by lia.
    change (2 + 1 =? 3) with true. cbn [fst snd].
    split; [|apply pending_initial].
    constructor; [unfold Text.scalar; lia | constructor].
Qed.

(** Whatever the bytes, the decoder emits scalar values only. *)
Lemma run_scalar (bs : bytes) :
  forall d, pending d -> Forall Text.scalar (Text.run d bs).
Proof.
  induction bs as [|b bs IH]; intros d Hd.
  - cbn [Text.run]. destruct (Text.bytes_needed d =? 0);
      [constructor | constructor; [apply scalar_replacement | constructor]].
  - rewrite run_cons.
    destruct (step_pending d (b2z b) Hd (b2z_range b)) as [Hout Hd'].
    destruct (Text.step d (b2z b)) as [out d']. cbn [fst snd] in *.
    apply Forall_app. split; [exact Hout | apply IH; exact Hd'].
Qed.

(** The code units of a scalar value are in range and well-formed. *)
Lemma code_units_of_scalar (c : Z) :
  Text.scalar c ->
  Forall code_unit (Text.code_units_of c)
  /\ forall rest,
       Text.isWellFormed (Text.code_units_of c ++ rest)
       = Text.isWellFormed rest.
Proof.
  intros Hc. unfold Text.scalar in Hc. unfold Text.code_units_of.
  destruct (Z.ltb_spec c 0x10000).
  - split; [constructor; [unfold code_unit; lia | constructor]|].
    intros rest. cbn [app Text.isWellFormed].
    replace (Text.is_lead c) with false by (unfold Text.is_lead; lia).
    replace (Text.is_trail c) with false by (unfold Text.is_trail; lia).
    reflexivity.
  - rewrite land_1023, Z.shiftr_div_pow2 by lia. change (2 ^ 10) with 1024.
    split.
    + constructor; [unfold code_unit; euclid|].
      constructor; [unfold code_unit; euclid | constructor].
    + intros rest. cbn [app Text.isWellFormed].
      replace (Text.is_lead (55296 + (c - 65536) / 1024)) with true
        by (symmetry; apply is_lead_spec; euclid).
      replace (Text.is_trail (56320 + (c - 65536) mod 1024)) with true
        by (symmetry; apply is_trail_spec; euclid).
      reflexivity.
Qed.

Lemma from_code_points_well_formed (cs : list Z) :
  Forall Text.scalar cs ->
  js_string (Text.from_code_points cs)
  /\ Text.isWellFormed (Text.from_code_points cs) = true.
Proof.
  unfold Text.from_code_points, js_string.
  induction 1 as [|c cs Hc _ [IH1 IH2]]; cbn [flat_map].
  - split; [constructor | reflexivity].
  - destruct (code_units_of_scalar c Hc) as [Hu Hwf].
    split; [apply Forall_app; split; assumption|].
    rewrite Hwf. exact IH2.
Qed.

(** Whatever the bytes, the text decoded from them is a well-formed
    string. *)
Lemma decoded_well_formed (bs : bytes) :
  js_string (Text.from_code_points (Text.utf8_decode bs))
  /\ Text.isWellFormed (Text.from_code_points (Text.utf8_decode bs)) = true.
Proof.
  apply from_code_points_well_formed. unfold Text.utf8_decode.
  apply run_scalar, pending_initial.
Qed.

Section DecodedText.
Context {P : Primitives}.

(** X4: every string [uint8ArrayToString] returns is well-formed (its code
    units are in range and no surrogate stands outside a pair), whatever the
    bytes; so is every string [symDecrypt] or [rsaDecrypt] returns. *)
Theorem decrypted_text_well_formed :
  (forall uint8Array,
     js_string (uint8ArrayToString uint8Array)
     /\ Text.isWellFormed (uint8ArrayToString uint8Array) = true)
  /\ (forall strKey encryptedData s,
        symDecrypt strKey encryptedData = Ok s ->
        js_string s /\ Text.isWellFormed s = true)
  /\ (forall data privateKey s,
        rsaDecrypt data privateKey = Ok s ->
        js_string s /\ Text.isWellFormed s = true).
Proof.
  split; [|split].
  - intros bs. apply decoded_well_formed.
  - intros strKey encryptedData s. unfold symDecrypt.
    destruct (importSymKey strKey) as [key|]; cbn [bind]; [|discriminate].
    destruct (subtle_decrypt _ key _) as [m|]; cbn [bind]; [|discriminate].
    intros [= <-]. apply decoded_well_formed.
  - intros data privateKey s. unfold rsaDecrypt.
    destruct (subtle_decrypt _ privateKey _) as [m|]; cbn [bind];
      [|discriminate].
    intros [= <-]. apply decoded_well_formed.
Qed.

End DecodedText.

(** A string that begins with U+FEFF comes back without it. *)
Lemma text_roundtrip_bom (rest : jsstring) :
  js_string rest -> Text.isWellFormed rest = true ->
  uint8ArrayToString (stringToUint8Array (Text.BOM :: rest)) = rest.
Proof.
  intros Hs Hwf.
  destruct (to_scalars_well_formed (length rest) rest) as [Hsc Hback]; auto.
  unfold uint8ArrayToString, stringToUint8Array,
    Text.TextDecoder_decode, Text.TextEncoder_encode.
  change (Text.to_scalars (Text.BOM :: rest))
    with (Text.BOM :: Text.to_scalars rest).
  rewrite utf8_encode_cons.
  change (Text.strip_bom (Text.utf8_encode_cp Text.BOM
                          ++ Text.utf8_encode (Text.to_scalars rest)))
    with (Text.utf8_encode (Text.to_scalars rest)).
  rewrite utf8_decode_encode by exact Hsc. exact Hback.
Qed.

(** X5: [uint8ArrayToString] gives back the string [stringToUint8Array]
    encoded exactly when the string is well-formed and does not begin with
    U+FEFF. *)
Theorem text_roundtrip_iff (s : jsstring) :
  js_string s ->
  uint8ArrayToString (stringToUint8Array s) = s
  <-> Text.isWellFormed s = true /\ hd_error s <> Some Text.BOM.
Proof.
  intros Hs. split.
  - intros Hback.
    assert (Hwf : Text.isWellFormed s = true).
    { rewrite <- Hback. apply decoded_well_formed. }
    split; [exact Hwf|].
    destruct s as [|u rest]; [discriminate|].
    cbn [hd_error]. intros [= ->].
    apply Forall_cons_iff in Hs as [_ Hrest].
    rewrite text_roundtrip_bom in Hback by assumption.
    apply (f_equal (@length Z)) in Hback. cbn [length] in Hback. lia.
  - intros [Hwf Hbom]. apply text_roundtrip; assumption.
Qed.

(** ** The shape and size of base64 text *)

Lemma char_in_alphabet (v : Z) :
  0 <= v < 64 -> base64_char (Base64.char v).
Proof.
  intros Hv. left. unfold Base64.char. apply nth_In.
  change (length Base64.alphabet) with 64%nat. lia.
Qed.

Lemma base64_char_ascii (c : Z) : base64_char c -> 0 <= c < 128.
Proof.
  intros [Hin | ->]; [|unfold Base64.pad; lia].
  cbv in Hin.
  repeat (destruct Hin as [<- | Hin]; [lia|]). destruct Hin.
Qed.

Lemma encode_chars (bs : bytes) : Forall base64_char (Base64.encode bs).
Proof.
  induction bs as [|a|a b|a b c l IH] using list_ind3.
  - constructor.
  - pose proof (b2z_range a) as Ha. cbn [Base64.encode].
    repeat (constructor; [first [apply char_in_alphabet; sextet_range
                                | right; reflexivity]|]).
    constructor.
  - pose proof (b2z_range a) as Ha. pose proof (b2z_range b) as Hb.
    cbn [Base64.encode].
    repeat (constructor; [first [apply char_in_alphabet; sextet_range
                                | right; reflexivity]|]).
    constructor.
  - pose proof (b2z_range a) as Ha. pose proof (b2z_range b) as Hb.
    pose proof (b2z_range c) as Hc.
    rewrite encode_3. cbn [app].
    repeat (constructor; [apply char_in_alphabet; sextet_range|]).
    exact IH.
Qed.

Lemma encode_length (bs : bytes) :
  length (Base64.encode bs) = (4 * ((length bs + 2) / 3))%nat.
Proof.
  induction bs as [|a|a b|a b c l IH] using list_ind3; try reflexivity.
  rewrite encode_3, length_app, IH. cbn [length].
  replace (S (S (S (length l))) + 2)%nat with (length l + 2 + 1 * 3)%nat
    by lia.
  rewrite Nat.div_add by lia. lia.
Qed.

Lemma sextets_length (s : jsstring) :
  (length (Base64.sextets s) <= length s)%nat.
Proof.
  induction s as [|u s IH]; [cbn; lia|].
  cbn [Base64.sextets length]. cbv zeta.
  destruct (Base64.unbase64 (Z.land u 255)); [cbn [length]; lia|].
  destruct (Z.land u 255 =? Base64.pad); [cbn [length]; lia | lia].
Qed.

Lemma pack_length (n : nat) :
  forall vs,
    (length vs <= n)%nat ->
    (4 * length (Base64.pack vs) <= 3 * length vs)%nat.
Proof.
  induction n as [|n IH]; intros vs Hn.
  - destruct vs; [cbn; lia | cbn in Hn; lia].
  - destruct vs as [|v0 [|v1 [|v2 [|v3 rest]]]]; try (cbn; lia).
    rewrite pack_4. cbn [length] in *.
    specialize (IH rest ltac:(lia)). lia.
Qed.

Lemma decode_length (s : jsstring) :
  (4 * length (Base64.decode s) <= 3 * length s)%nat.
Proof.
  unfold Base64.decode.
  pose proof (pack_length _ (Base64.sextets s) (Nat.le_refl _)).
  pose proof (sextets_length s). lia.
Qed.

(** X6: the text [arrayBufferToBase64] returns for [n] bytes has
    [4 * ceil(n / 3)] characters, each of the base64 alphabet or ['='], so
    it is a string of 7-bit characters. *)
Theorem arrayBufferToBase64_shape (buffer : bytes) :
  length (arrayBufferToBase64 buffer)
  = (4 * ((length buffer + 2) / 3))%nat
  /\ Forall base64_char (arrayBufferToBase64 buffer)
  /\ Forall (fun c => 0 <= c < 128) (arrayBufferToBase64 buffer).
Proof.
  unfold arrayBufferToBase64.
  split; [apply encode_length|]. split; [apply encode_chars|].
  apply List.Forall_forall. intros c Hc.
  apply base64_char_ascii.
  pose proof (encode_chars buffer) as H.
  rewrite List.Forall_forall in H. apply H. exact Hc.
Qed.

Section DecodedSize.
Context {P : Primitives}.

(** X7: [base64ToArrayBuffer] returns at most three bytes for every four
    characters of its argument, whatever they are; so [importSymKey]
    rejects every string of fewer than 22 characters, which cannot hold the
    16 bytes of the shortest AES key. *)
Theorem base64ToArrayBuffer_at_most_three_quarters (base64 : jsstring) :
  (4 * length (base64ToArrayBuffer base64) <= 3 * length base64)%nat
  /\ ((length base64 < 22)%nat -> importSymKey base64 = Err DataError).
Proof.
  pose proof (decode_length base64) as Hlen.
  split; [exact Hlen|]. intros Hshort.
  rewrite importSymKey_length. cbv zeta.
  unfold base64ToArrayBuffer in *.
  destruct (Nat.eqb_spec (length (Base64.decode base64)) 16); [lia|].
  destruct (Nat.eqb_spec (length (Base64.decode base64)) 24); [lia|].
  destruct (Nat.eqb_spec (length (Base64.decode base64)) 32); [lia|].
  reflexivity.
Qed.

End DecodedSize.

(** ** The size of encoded text *)

Lemma utf8_encode_cp_length (c : Z) :
  (1 <= length (Text.utf8_encode_cp c) <= 4)%nat
  /\ (c < 0x10000 -> (length (Text.utf8_encode_cp c) <= 3)%nat).
Proof.
  unfold Text.utf8_encode_cp.
  destruct (Z.ltb_spec c 0x80);
    [|destruct (Z.ltb_spec c 0x800); [|destruct (Z.ltb_spec c 0x10000)]];
    cbn [length]; lia.
Qed.

(** Every code unit gives at least one byte and at most three. *)
Lemma TextEncoder_encode_length (n : nat) :
  forall s,
    (length s <= n)%nat -> js_string s ->
    (length s <= length (Text.TextEncoder_encode s) <= 3 * length s)%nat.
Proof.
  unfold Text.TextEncoder_encode.
  induction n as [|n IH]; intros s Hlen Hs.
  - destruct s; [cbn; lia | cbn in Hlen; lia].
  - destruct s as [|u rest]; [cbn; lia|].
    apply Forall_cons_iff in Hs as [Hu Hrest]. unfold code_unit in Hu.
    cbn [length] in Hlen.
    pose proof (IH rest ltac:(lia) Hrest) as IHrest.
    cbn [Text.to_scalars].
    destruct (Text.is_lead u) eqn:Elead.
    + destruct rest as [|v rest'].
      * cbn. lia.
      * destruct (Text.is_trail v) eqn:Etrail.
        -- apply Forall_cons_iff in Hrest as [_ Hrest'].
           cbn [length] in *.
           pose proof (IH rest' ltac:(lia) Hrest') as IH'.
           rewrite utf8_encode_cons, length_app.
           pose proof (utf8_encode_cp_length
                         (65536 + Z.shiftl (u - 55296) 10 + (v - 56320)))
             as [H14 _].
           apply is_lead_spec in Elead. apply is_trail_spec in Etrail.
           assert (length (Text.utf8_encode_cp
                             (65536 + Z.shiftl (u - 55296) 10 + (v - 56320)))
                   = 4%nat).
           { unfold Text.utf8_encode_cp.
             rewrite Z.shiftl_mul_pow2 by lia. change (2 ^ 10) with 1024.
             destruct (Z.ltb_spec (65536 + (u - 55296) * 1024 + (v - 56320))
                         0x80); [lia|].
             destruct (Z.ltb_spec (65536 + (u - 55296) * 1024 + (v - 56320))
                         0x800); [lia|].
             destruct (Z.ltb_spec (65536 + (u - 55296) * 1024 + (v - 56320))
                         0x10000); [lia|].
             reflexivity. }
           lia.
        -- rewrite utf8_encode_cons, length_app.
           change (length (Text.utf8_encode_cp Text.REPLACEMENT)) with 3%nat.
           cbn [length] in *. lia.
    + assert (Hcp : forall c, 0 <= c < 0x10000 ->
                (length (Text.utf8_encode
                           (c :: Text.to_scalars rest)) <= 3 * S (length rest)
                 /\ S (length rest)
                    <= length (Text.utf8_encode
                                 (c :: Text.to_scalars rest)))%nat).
      { intros c Hc. rewrite utf8_encode_cons, length_app.
        destruct (utf8_encode_cp_length c) as [H14 H3].
        specialize (H3 ltac:(lia)). lia. }
      cbn [length].
      destruct (Text.is_trail u).
      * destruct (Hcp Text.REPLACEMENT); [unfold Text.REPLACEMENT; lia|]. lia.
      * destruct (Hcp u); [lia|]. lia.
Qed.

Section BlobSize.
Context {P : Primitives}.

(** X8: the blob [symEncrypt] returns for a plaintext of [m] code units
    decodes to [28 + n] bytes, the IV, the [n] bytes of the encoded
    plaintext and the tag, where [m <= n <= 3 * m]; it has
    [4 * ceil((28 + n) / 3)] characters. *)
Theorem symEncrypt_blob_size (L : AesGcmLaws P) (key : CryptoKey)
    (data blob : jsstring) (e : entropy) :
  js_string data ->
  fst (symEncrypt key data e) = Ok blob ->
  let n := length (stringToUint8Array data) in
  (length data <= n <= 3 * length data)%nat
  /\ length (base64ToArrayBuffer blob) = (28 + n)%nat
  /\ length blob = (4 * ((30 + n) / 3))%nat.
Proof.
  intros Hdata Hblob n.
  destruct (symEncrypt_Ok key data blob e Hblob) as (keyData & _ & ->).
  split; [exact (TextEncoder_encode_length _ data (Nat.le_refl _) Hdata)|].
  unfold base64ToArrayBuffer. rewrite decode_encode, encode_length.
  rewrite length_app, draw_length, gcm_encrypt_length. fold n.
  split; [lia|]. f_equal. f_equal. lia.
Qed.

End BlobSize.

(** ** Keys: export, import and the operations they allow *)

Section KeysByType.
Context {P : Primitives}.



Lemma importPrvKey_exportPrvKey (L : RsaOaepLaws P) (k : rsa_private) :
  importPrvKey (Base64.encode (pkcs8_encode k))
  = Ok {| material := RsaPrivate k; extractable := true;
          usages := [decrypt] |}.
Proof.
  unfold importPrvKey, importKey, base64ToArrayBuffer.
  cbn [usages_within forallb has_usage existsb usage_eqb orb andb negb].
  rewrite decode_encode, pkcs8_parse_encode. reflexivity.
Qed.

(** X10: both keys of a generated pair come back from their exported
    strings: [importPubKey] of [exportPubKey]'s string is the public key
    and [importPrvKey] of [exportPrvKey]'s string is the private key, with
    the same usages; so a message of at most 190 bytes encrypted for the
    exported public key decrypts under the private key imported again. *)
Theorem rsa_keys_export_import (L : RsaOaepLaws P) (e e' : entropy) :
  exists pair strPubKey strPrvKey,
    fst (generateRsaKeyPair e) = Ok pair
    /\ exportPubKey (publicKey pair) = Ok strPubKey
    /\ importPubKey strPubKey = Ok (publicKey pair)
    /\ exportPrvKey (Some (privateKey pair)) = Ok (Some strPrvKey)
    /\ importPrvKey strPrvKey = Ok (privateKey pair)
    /\ forall b64Data,
         (length (base64ToArrayBuffer b64Data) <= 190)%nat ->
         exists c prv,
           importPrvKey strPrvKey = Ok prv
           /\ fst (rsaEncrypt b64Data strPubKey e') = Ok c
           /\ rsaDecrypt c prv
              = Ok (Text.Buffer_toString_utf8 (base64ToArrayBuffer b64Data)).
Proof.
  rewrite generateRsaKeyPair_generate.
  destruct (rsa_generate 2048 65537 e) as [[pub prv] e1] eqn:Hgen.
  eexists. exists (Base64.encode (spki_encode pub)),
    (Base64.encode (pkcs8_encode prv)).
  split; [reflexivity|]. cbn [publicKey privateKey].
  split; [reflexivity|].
  split; [apply importPubKey_exportPubKey; exact L|].
  split; [reflexivity|].
  split; [apply importPrvKey_exportPrvKey; exact L|].
  intros b64Data Hlen.
  destruct (rsaDecrypt_rsaEncrypt L e e1 e' pub prv b64Data Hgen Hlen)
    as (c & Henc & Hdec).
  exists c. eexists. split; [apply importPrvKey_exportPrvKey; exact L|].
  split; assumption.
Qed.

(** X11: for a key string [importSymKey] accepts, [symDecrypt] rejects
    with [OperationError] every blob that decodes to fewer than 28 bytes,
    the 12 of the IV and the 16 of the tag, without consulting the cipher;
    every blob of fewer than 38 characters is such a blob. *)
Theorem symDecrypt_needs_28_bytes (strKey encryptedData : jsstring)
    (key : CryptoKey) :
  importSymKey strKey = Ok key ->
  ((length (base64ToArrayBuffer encryptedData) < 28)%nat ->
   symDecrypt strKey encryptedData = Err OperationError)
  /\ ((length encryptedData < 38)%nat ->
      symDecrypt strKey encryptedData = Err OperationError).
Proof.
  intros Hkey.
  assert (H28 : (length (base64ToArrayBuffer encryptedData) < 28)%nat ->
                symDecrypt strKey encryptedData = Err OperationError).
  { intros Hshort. unfold symDecrypt. rewrite Hkey. cbn [bind].
    rewrite importSymKey_length in Hkey. cbv zeta in Hkey.
    destruct ((length (base64ToArrayBuffer strKey) =? 16)%nat
              || (length (base64ToArrayBuffer strKey) =? 24)%nat
              || (length (base64ToArrayBuffer strKey) =? 32)%nat);
      [|discriminate].
    injection Hkey as <-. unfold subtle_decrypt, aes_key.
    cbn [params_name algorithm_name material name_eqb negb usages has_usage
         existsb usage_eqb orb].
    destruct (Nat.ltb_spec
                (length (skipn 12 (base64ToArrayBuffer encryptedData))) 16)
      as [_|Hge]; [reflexivity|].
    rewrite length_skipn in Hge. lia. }
  split; [exact H28|]. intros Hchars. apply H28.
  pose proof (decode_length encryptedData). unfold base64ToArrayBuffer. lia.
Qed.

(** X12: [symEncrypt] takes its IV from the random source before it looks
    at the key, so it uses up exactly twelve random bytes whether it returns
    a blob or fails; the IV of a call is the first twelve bytes of the
    source it is given, and a call that follows gets the next twelve. *)
Theorem symEncrypt_draws_twelve_bytes (key : CryptoKey) (data : jsstring)
    (e : entropy) :
  snd (symEncrypt key data e) = snd (draw 12 e)
  /\ fst (draw 12 e) = map e (seq 0 12)
  /\ fst (draw 12 (snd (symEncrypt key data e))) = map e (seq 12 12)
  /\ forall blob,
       fst (symEncrypt key data e) = Ok blob ->
       firstn 12 (base64ToArrayBuffer blob) = map e (seq 0 12).
Proof.
  assert (Hsnd : snd (symEncrypt key data e) = snd (draw 12 e)).
  { destruct key as [m ex us]. unfold symEncrypt, rbind.
    rewrite getRandomValues_draw. unfold subtle_encrypt.
    cbn [params_name algorithm_name material usages].
    destruct m as [k|k|k]; cbn [name_eqb negb lift snd]; try reflexivity.
    destruct (has_usage encrypt us); reflexivity. }
  split; [exact Hsnd|]. split; [reflexivity|].
  split; [rewrite Hsnd; reflexivity|].
  intros blob Hblob.
  destruct (symEncrypt_Ok key data blob e Hblob) as (keyData & _ & ->).
  unfold base64ToArrayBuffer. rewrite decode_encode.
  apply firstn_draw_app.
Qed.

End KeysByType.

(** ** The registry: what a sequence of requests leaves *)

Module ListingFacts.
Import Registry Listing RegistryFacts.

Lemma serve_snd_cons (s : store) (r : request) (rs : list request) :
  snd (serve s (r :: rs))
  = snd (handle s r) :: snd (serve (fst (handle s r)) rs).
Proof.
  cbn [serve]. destruct (handle s r) as [s' resp]. cbn [fst snd].
  destruct (serve s' rs). reflexivity.
Qed.

Lemma handle_read_only (s : store) (r : request) :
  read_only r = true -> fst (handle s r) = s.
Proof.
  destruct r as [|b|n|]; cbn [read_only handle]; try discriminate;
    intros _; try reflexivity.
  unfold getPrivateKey. destruct (nodeKeys s !! n); reflexivity.
Qed.

(** A request adds at most one node, at the end, and only a registration
    does. *)
Lemma handle_appends (s : store) (r : request) :
  exists added,
    nodes (fst (handle s r)) = nodes s ++ added
    /\ incl (map nodeId added) (registrations [r]).
Proof.
  destruct r as [|b|n|]; cbn [handle].
  - exists []. rewrite app_nil_r. split; [reflexivity | intros x []].
  - unfold registerNode.
    destruct (find _ (nodes s)); cbn [fst nodes].
    + exists []. rewrite app_nil_r. split; [reflexivity | intros x []].
    + eexists. split; [reflexivity|]. cbn. intros x Hx. exact Hx.
  - unfold getPrivateKey.
    exists []. rewrite app_nil_r.
    destruct (nodeKeys s !! n); split; first [reflexivity | intros x []].
  - exists []. rewrite app_nil_r. split; [reflexivity | intros x []].
Qed.

(** X13: the registry only grows, and only by registrations: whatever the
    store and the requests, [nodeKeys] stays as it was, the nodes there
    were stay in place and new ones follow them, each with the [nodeId] of
    one of the registration requests, every request gets one response, and
    requests other than registrations leave the store as it was. *)
Theorem registry_append_only (s : store) (rs : list request) :
  nodeKeys (fst (serve s rs)) = nodeKeys s
  /\ (exists added,
        nodes (fst (serve s rs)) = nodes s ++ added
        /\ incl (map nodeId added) (registrations rs))
  /\ length (snd (serve s rs)) = length rs
  /\ (forallb read_only rs = true -> fst (serve s rs) = s).
Proof.
  split; [apply serve_nodeKeys|].
  revert s. induction rs as [|r rs IH]; intros s.
  - split; [exists []; rewrite app_nil_r; split;
            [reflexivity | intros x []]|].
    split; reflexivity.
  - destruct (IH (fst (handle s r))) as ((added' & Hn' & Hi') & Hlen & Hro).
    destruct (handle_appends s r) as (added & Hn & Hi).
    split; [|split].
    + exists (added ++ added'). rewrite serve_cons, Hn', Hn, app_assoc.
      split; [reflexivity|].
      rewrite map_app, (registrations_cons r rs).
      apply incl_app; [apply incl_appl | apply incl_appr]; assumption.
    + rewrite serve_snd_cons. cbn [length]. rewrite Hlen. reflexivity.
    + cbn [forallb]. intros H. apply andb_true_iff in H as [Hr Hrs].
      rewrite serve_cons, (handle_read_only s r Hr). 
      rewrite (handle_read_only s r Hr) in Hro. apply Hro. exact Hrs.
Qed.

Lemma existsb_eqb_In (id : Z) (l : list Z) :
  existsb (Z.eqb id) l = true <-> In id l.
Proof.
  rewrite existsb_exists. split.
  - intros (x & Hx & E). apply Z.eqb_eq in E. subst. exact Hx.
  - intros H. exists id. split; [exact H | apply Z.eqb_refl].
Qed.

(** X14: after any requests, a registration is answered 400 when its
    [nodeId] is that of an earlier registration request, accepted or not,
    and 201 otherwise; in the first case the store stays as it was, in the
    second the node is added. *)
Theorem registerNode_status (before : list request) (b : RegisterNodeBody) :
  let s := fst (serve empty_store before) in
  if existsb (Z.eqb (body_nodeId b)) (registrations before)
  then handle s (POST_registerNode b)
       = (s, {| status := 400; payload := send "Node already registered." |})
  else snd (handle s (POST_registerNode b))
       = {| status := 201; payload := send "Node registered successfully." |}
       /\ nodes (fst (handle s (POST_registerNode b)))
          = nodes s ++ [node_of b].
Proof.
  intros s. cbn [handle]. unfold registerNode.
  destruct (existsb (Z.eqb (body_nodeId b)) (registrations before)) eqn:E.
  - apply existsb_eqb_In in E.
    destruct (find _ (nodes s)) as [n|] eqn:Ef; [reflexivity|].
    apply find_None_ids in Ef. exfalso. apply Ef.
    unfold s. apply serve_ids. auto.
  - destruct (find _ (nodes s)) as [n|] eqn:Ef; [|split; reflexivity].
    exfalso.
    assert (Hin : In (body_nodeId b) (map nodeId (nodes s))).
    { destruct (in_dec Z.eq_dec (body_nodeId b) (map nodeId (nodes s)))
        as [H|H]; [exact H|].
      apply find_None_ids in H. congruence. }
    unfold s in Hin. apply serve_ids in Hin. cbn [empty_store nodes map In] in Hin.
    destruct Hin as [[]|Hin]. apply existsb_eqb_In in Hin. congruence.
Qed.

Lemma filter_filter {A} (p q : A -> bool) (l : list A) :
  List.filter p (List.filter q l) = List.filter (fun x => q x && p x) l.
Proof.
  induction l as [|x l IH]; [reflexivity|].
  cbn [List.filter]. destruct (q x); cbn [List.filter andb];
    [destruct (p x)|]; rewrite IH; reflexivity.
Qed.

Lemma filter_ext_in {A} (p q : A -> bool) (l : list A) :
  (forall x, p x = q x) -> List.filter p l = List.filter q l.
Proof.
  intros H. induction l as [|x l IH]; [reflexivity|].
  cbn [List.filter]. rewrite H, IH. reflexivity.
Qed.

Lemma fresh_snoc (ids : list Z) (id : Z) (node : Node) :
  fresh (ids ++ [id]) node = negb (nodeId node =? id) && fresh ids node.
Proof.
  unfold fresh. rewrite existsb_app. cbn [existsb]. rewrite orb_false_r.
  rewrite negb_orb. apply andb_comm.
Qed.

(** The nodes after a sequence of requests: those there were, then the
    first registration of every [nodeId] that was not there. *)
Lemma serve_nodes (rs : list request) :
  forall s,
    nodes (fst (serve s rs))
    = nodes s
      ++ List.filter (fresh (map nodeId (nodes s)))
           (first_registrations (bodies rs)).
Proof.
  induction rs as [|r rs IH]; intros s.
  - cbn. rewrite app_nil_r. reflexivity.
  - rewrite serve_cons, IH.
    destruct r as [|b|n|]; cbn [handle bodies flat_map app];
      try reflexivity.
    2:{ unfold getPrivateKey. destruct (nodeKeys s !! n); reflexivity. }
    fold (bodies rs). cbn [first_registrations List.filter].
    unfold registerNode.
    destruct (find _ (nodes s)) as [n|] eqn:Ef; cbn [fst nodes].
    + assert (Hin : In (body_nodeId b) (map nodeId (nodes s))).
      { destruct (in_dec Z.eq_dec (body_nodeId b) (map nodeId (nodes s)))
          as [H|H]; [exact H|].
        apply find_None_ids in H. congruence. }
      replace (fresh (map nodeId (nodes s)) (node_of b)) with false.
      2:{ unfold fresh, node_of. cbn [nodeId].
          apply existsb_eqb_In in Hin. rewrite Hin. reflexivity. }
      rewrite filter_filter. f_equal. apply filter_ext_in. intros x.
      destruct (Z.eqb_spec (nodeId x) (body_nodeId b)) as [E|N];
        cbn [negb andb]; [|reflexivity].
      unfold fresh. rewrite E. apply existsb_eqb_In in Hin.
      rewrite Hin. reflexivity.
    + apply find_None_ids in Ef.
      replace (fresh (map nodeId (nodes s)) (node_of b)) with true.
      2:{ unfold fresh, node_of. cbn [nodeId].
          destruct (existsb (Z.eqb (body_nodeId b)) (map nodeId (nodes s)))
            eqn:E; [|reflexivity].
          apply existsb_eqb_In in E. contradiction. }
      rewrite <- app_assoc. cbn [app]. f_equal. f_equal.
      rewrite map_app. cbn [map nodeId].
      rewrite filter_filter. apply filter_ext_in. intros x.
      apply fresh_snoc.
Qed.

(** X15: the listing [/getNodeRegistry] sends after any sequence of
    requests is the registrations in the order they were made, with every
    later registration of an already registered [nodeId] left out. *)
Theorem listing_first_registrations (rs : list request) :
  let s := fst (serve empty_store rs) in
  nodes s = first_registrations (bodies rs)
  /\ handle s GET_getNodeRegistry
     = (s, {| status := 200;
              payload := json_nodes (first_registrations (bodies rs)) |}).
Proof.
  intros s.
  assert (H : nodes s = first_registrations (bodies rs)).
  { unfold s. rewrite serve_nodes. cbn [empty_store nodes map app].
    induction (first_registrations (bodies rs)) as [|x l IHl];
      [reflexivity|].
    cbn [List.filter fresh existsb negb]. rewrite IHl. reflexivity. }
  split; [exact H|].
  cbn [handle]. unfold getNodeRegistry. rewrite H. reflexivity.
Qed.

End ListingFacts.

(** ** Further concrete runs *)

Section MoreRuns.
#[local] Existing Instance Toy.primitives.

Lemma decrypted_text_well_formed_witness :
  uint8ArrayToString [xed; xa0; x80; x41] = [0xFFFD; 0xFFFD; 0xFFFD; 0x41]
  /\ Text.isWellFormed (uint8ArrayToString [xed; xa0; x80; x41]) = true.
Proof.
  split; [reflexivity|].
  exact (proj2 (proj1 decrypted_text_well_formed [xed; xa0; x80; x41])).
Defined.

Lemma text_roundtrip_iff_witness :
  js_string (js "secret")
  /\ uint8ArrayToString (stringToUint8Array (js "secret")) = js "secret"
  /\ Text.isWellFormed (js "secret") = true.
Proof.
  split; [apply js_string_js|]. split; [reflexivity|].
  exact (proj1 (proj1 (text_roundtrip_iff (js "secret")
                         (js_string_js "secret")) eq_refl)).
Defined.

Lemma base64ToArrayBuffer_at_most_three_quarters_witness :
  (length (js "AAAAAAAAAAAAAAAAAAAAA") < 22)%nat
  /\ importSymKey (js "AAAAAAAAAAAAAAAAAAAAA") = Err DataError.
Proof.
  split; [vm_compute; lia|].
  apply (proj2 (base64ToArrayBuffer_at_most_three_quarters
                  (js "AAAAAAAAAAAAAAAAAAAAA"))).
  vm_compute. lia.
Defined.

Lemma symEncrypt_blob_size_witness :
  exists blob,
    fst (symEncrypt Toy.run_key (js "secret") Toy.run_rest) = Ok blob
    /\ length (base64ToArrayBuffer blob) = 34%nat
    /\ length blob = 48%nat.
Proof.
  eexists. split; [reflexivity|].
  exact (proj2 (symEncrypt_blob_size toy_aes_gcm_laws Toy.run_key
                  (js "secret") _ Toy.run_rest (js_string_js "secret")
                  eq_refl)).
Defined.


Lemma rsa_keys_export_import_witness :
  exists pair strPubKey strPrvKey,
    fst (generateRsaKeyPair Toy.counting) = Ok pair
    /\ exportPubKey (publicKey pair) = Ok strPubKey
    /\ importPubKey strPubKey = Ok (publicKey pair)
    /\ exportPrvKey (Some (privateKey pair)) = Ok (Some strPrvKey)
    /\ importPrvKey strPrvKey = Ok (privateKey pair).
Proof.
  destruct (rsa_keys_export_import toy_rsa_oaep_laws Toy.counting
              Toy.run_rest)
    as (pair & strPubKey & strPrvKey & H1 & H2 & H3 & H4 & H5 & _).
  exists pair, strPubKey, strPrvKey. auto.
Defined.

Lemma symDecrypt_needs_28_bytes_witness :
  importSymKey (Base64.encode (fst (draw 32 Toy.counting))) = Ok Toy.run_key
  /\ length (base64ToArrayBuffer (js "AAAAAAAAAAAAAAAAAAAAAAAAAAAAAAAAAAAA"))
     = 27%nat
  /\ symDecrypt (Base64.encode (fst (draw 32 Toy.counting)))
       (js "AAAAAAAAAAAAAAAAAAAAAAAAAAAAAAAAAAAA")
     = Err OperationError.
Proof.
  split; [reflexivity|]. split; [reflexivity|].
  apply (proj1 (symDecrypt_needs_28_bytes
                  (Base64.encode (fst (draw 32 Toy.counting)))
                  (js "AAAAAAAAAAAAAAAAAAAAAAAAAAAAAAAAAAAA")
                  Toy.run_key eq_refl)).
  vm_compute. lia.
Defined.

End MoreRuns.
